(** * The Copilot invoker of spec-kitty: [build_command] and [parse_output]

    A shallow embedding of
    [src/specify_cli/orchestrator/agents/copilot.py] (class [CopilotInvoker])
    and the properties of its argument vector, its success policy, its
    error harvesting and its file-path extractor.
    The helpers [_slugify], [_prompt_raw_notes] and
    [_get_existing_features] of [src/specify_cli/cli/commands/wizard.py]
    follow, with what they return.

    Conventions of the embedding.
    - A Python [str] is a [string]; a character is a code point below 256
      (the Latin-1 range), on which [str.isspace], [str.lower] and the
      regular-expression classes [\s] and [\w] are written out in full.
    - A Python [int] is a [Z], a [float] a binary64 [float], a [list] a
      [list], and [set(...)] a [gset].
    - A call that may raise has type [outcome _]; only the two helpers
      inherited from [BaseInvoker] (module [base], whose source is not
      embedded here) are of that kind, and they are parameters of the
      invoker. *)

From Stdlib Require Import ZArith NArith Ascii String List Bool Lia.
From Stdlib Require Import Floats.PrimFloat.
From stdpp Require Import base list strings gmap sorting.

(** ** Characters *)

Module Chr.

Definition code (c : ascii) : N := N_of_ascii c.

Definition between (lo hi : N) (c : ascii) : bool :=
  ((lo <=? code c) && (code c <=? hi))%N.

Definition at_code (n : N) (c : ascii) : bool := (code c =? n)%N.

(** [str.isspace] on one character: TAB..CR, FS..US, SPACE, NEL, NBSP. *)
Definition isspace (c : ascii) : bool :=
  between 9 13 c || between 28 32 c || at_code 133 c || at_code 160 c.

(** The characters [str.lower] changes: A-Z and the Latin-1 capitals
    (all of 0xC0..0xDE but the multiplication sign 0xD7). *)
Definition has_lower (c : ascii) : bool :=
  between 65 90 c || (between 192 222 c && negb (at_code 215 c)).

Definition lower (c : ascii) : ascii :=
  if has_lower c then ascii_of_N (code c + 32) else c.

(** [str.isalnum] on one character (alphabetic, decimal, digit or
    numeric), which is what [\w] tests besides the underscore. *)
Definition isalnum (c : ascii) : bool :=
  between 48 57 c || between 65 90 c || between 97 122 c
  || at_code 170 c || at_code 178 c || at_code 179 c || at_code 181 c || at_code 185 c || at_code 186 c
  || between 188 190 c
  || between 192 214 c || between 216 246 c || between 248 255 c.

Definition isword (c : ascii) : bool := isalnum c || at_code 95 c.

End Chr.

(** ** The [str] methods the invoker calls *)

Module Str.

(** [s.lower()] *)
Fixpoint lower (s : string) : string :=
  match s with
  | "" => ""
  | String c s' => String (Chr.lower c) (lower s')
  end.

(** [s.lstrip()], [s.rstrip()] and [s.strip()] with no argument. *)
Fixpoint lstrip (s : string) : string :=
  match s with
  | "" => ""
  | String c s' => if Chr.isspace c then lstrip s' else s
  end.

Fixpoint rstrip (s : string) : string :=
  match s with
  | "" => ""
  | String c s' =>
      match rstrip s' with
      | "" => if Chr.isspace c then "" else String c ""
      | r => String c r
      end
  end.

Definition strip (s : string) : string := rstrip (lstrip s).

(** [s.split(sep)] for a separator of one character: every occurrence
    of [sep] ends a field, and the last field may be empty. *)
Fixpoint split (sep : ascii) (s : string) : list string :=
  match s with
  | "" => [""]
  | String c s' =>
      if Ascii.eqb c sep then "" :: split sep s'
      else match split sep s' with
           | field :: fields => String c field :: fields
           | [] => [String c ""]
           end
  end.

(** [needle in s] *)
Fixpoint contains (needle s : string) : bool :=
  String.prefix needle s
  || match s with
     | "" => false
     | String _ s' => contains needle s'
     end.

(** Truth value of a [str]: non-empty. *)
Definition truthy (s : string) : bool :=
  match s with "" => false | _ => true end.

(** [s[0]] and [s[-1]], when there are such. *)
Definition first (s : string) : option ascii :=
  match s with "" => None | String c _ => Some c end.

Fixpoint last (s : string) : option ascii :=
  match s with
  | "" => None
  | String c "" => Some c
  | String _ s' => last s'
  end.

(** No whitespace at either end. *)
Definition trimmed (s : string) : Prop :=
  (forall c, first s = Some c -> Chr.isspace c = false)
  /\ (forall c, last s = Some c -> Chr.isspace c = false).

End Str.

Definition LF : ascii := "010"%char.
Definition SQUOTE : ascii := "039"%char.
Definition DQUOTE : ascii := "034"%char.

(** ** The fragment of [re] the extractor's two patterns use

    Python's matcher is a backtracking one: alternatives are tried from
    left to right, [?] and [+] are greedy and give characters back one at
    a time, and the first way to match the whole pattern wins. The
    matcher below is written in continuation-passing style to follow that
    order. Repetition is only ever applied to a single character class in
    the two patterns, which keeps the matcher structural. *)

Module Re.

(** One item of a character class. *)
Inductive item : Type :=
| Lit (c : ascii)      (* the character itself *)
| Space                (* \s *)
| Word.                (* \w *)

(** Something that matches exactly one character. *)
Inductive cclass : Type :=
| One (i : item)
| AnyOf (items : list item)     (* [...] *)
| NoneOf (items : list item).   (* [^...] *)

Inductive regex : Type :=
| Chars (c : cclass)            (* one character of the class *)
| Text (s : string)             (* a run of literal characters *)
| Seq (r1 r2 : regex)           (* r1 r2 *)
| Alt (r1 r2 : regex)           (* r1|r2 *)
| Opt (c : cclass)              (* c? *)
| Plus (c : cclass)             (* c+ *)
| Group (r : regex).            (* ( r ), the pattern's group 1 *)

Section Matcher.

(** [re.IGNORECASE] *)
Variable ignorecase : bool.

Definition fold_case (c : ascii) : ascii :=
  if ignorecase then Chr.lower c else c.

Definition item_matches (i : item) (x : ascii) : bool :=
  match i with
  | Lit c => Ascii.eqb (fold_case x) (fold_case c)
  | Space => Chr.isspace x
  | Word => Chr.isword x
  end.

Definition class_matches (c : cclass) (x : ascii) : bool :=
  match c with
  | One i => item_matches i x
  | AnyOf items => existsb (fun i => item_matches i x) items
  | NoneOf items => negb (existsb (fun i => item_matches i x) items)
  end.

(** The literal run [lit] at the front of [s]: what is left of [s]. *)
Fixpoint eat_text (lit s : string) : option string :=
  match lit, s with
  | "", _ => Some s
  | String c lit', String x s' =>
      if item_matches (Lit c) x then eat_text lit' s' else None
  | String _ _, "" => None
  end.

Section Run.
(** The answer type of the continuations. *)
Context {A : Type}.

Definition or_else (first : option A) (second : option A) : option A :=
  match first with
  | Some a => Some a
  | None => second
  end.

(** [c*], greedy: take the longest run, then give back one
    character at a time until the continuation accepts. *)
Fixpoint star (c : cclass) (s : string) (k : string -> option A) : option A :=
  match s with
  | String x s' =>
      if class_matches c x then or_else (star c s' k) (k s) else k s
  | "" => k ""
  end.

Definition plus (c : cclass) (s : string) (k : string -> option A) : option A :=
  match s with
  | String x s' => if class_matches c x then star c s' k else None
  | "" => None
  end.

Definition opt (c : cclass) (s : string) (k : string -> option A) : option A :=
  match s with
  | String x s' =>
      if class_matches c x then or_else (k s') (k s) else k s
  | "" => k ""
  end.

(** [exec r s g k]: match [r] at the front of [s], with [g] the text
    of group 1 so far, and hand the rest of the input to [k]. *)
Fixpoint exec (r : regex) (s : string) (g : option string)
    (k : string -> option string -> option A) : option A :=
  match r with
  | Chars c =>
      match s with
      | String x s' => if class_matches c x then k s' g else None
      | "" => None
      end
  | Text lit =>
      match eat_text lit s with
      | Some s' => k s' g
      | None => None
      end
  | Seq r1 r2 => exec r1 s g (fun s' g' => exec r2 s' g' k)
  | Alt r1 r2 => or_else (exec r1 s g k) (exec r2 s g k)
  | Opt c => opt c s (fun s' => k s' g)
  | Plus c => plus c s (fun s' => k s' g)
  | Group r1 =>
      exec r1 s g (fun s' _ =>
        k s' (Some (String.substring 0 (String.length s - String.length s') s)))
  end.
End Run.

(** A match of [r] starting at the first character of [s]: the text of
    group 1 and the input left after the match. *)
Definition match_here (r : regex) (s : string) : option (option string * string) :=
  exec r s None (fun s' g => Some (g, s')).

(** [re.findall] for a pattern with one group: the text of the group
    for every match, scanning from left to right, each search
    resuming where the previous match ended ([skip] counts the
    characters of the current match still to be stepped over). An
    unset group reads as the empty string. Both patterns of the
    extractor need several characters, so no match is attempted on
    the empty rest of the input. *)
Fixpoint findall_from (r : regex) (s : string) (skip : nat) : list string :=
  match s with
  | "" => []
  | String _ s' =>
      match skip with
      | S skip' => findall_from r s' skip'
      | O =>
          match match_here r s with
          | Some (g, rest) =>
              default "" g
                :: findall_from r s' (String.length s - String.length rest - 1)
          | None => findall_from r s' 0
          end
      end
  end.

End Matcher.

Definition findall (r : regex) (text : string) (ignorecase : bool) : list string :=
  findall_from ignorecase r text 0.

End Re.

(** ** Exceptions *)

Inductive exn : Type :=
| Exception (class message : string).

Inductive outcome (A : Type) : Type :=
| Returned (a : A)
| Raised (e : exn).

Arguments Returned {A} a.
Arguments Raised {A} e.

(** An exception raised by a call leaves the caller at once. *)
#[global] Instance outcome_bind : MBind outcome := fun A B f o =>
  match o with
  | Returned a => f a
  | Raised e => Raised e
  end.

(** ** The result record built by [parse_output] *)

Record InvocationResult : Type := {
  success : bool;
  exit_code : Z;
  stdout : string;
  stderr : string;
  duration_seconds : float;
  files_modified : list string;
  commits_made : list string;
  errors : list string;
  warnings : list string;
}.

(** ** [CopilotInvoker] *)

Definition agent_id : string := "copilot".
Definition command : string := "copilot".
Definition uses_stdin : bool := false.

(** [build_command(prompt, working_dir, role)] *)
Definition build_command (prompt : string) (working_dir : string) (role : string)
    : list string :=
  [ "copilot";
    "-p"; prompt;
    "--yolo";
    "-s" ].

(** The class of the two quote characters, apostrophe and double quote
    (written Q below). *)
Definition quote : Re.cclass := Re.AnyOf [Re.Lit SQUOTE; Re.Lit DQUOTE].

(** [Q?([^\sQ]+\.\w+)Q?], the common tail of both patterns. *)
Definition path_token : Re.regex :=
  Re.Seq (Re.Opt quote)
    (Re.Seq
       (Re.Group
          (Re.Seq (Re.Plus (Re.NoneOf [Re.Space; Re.Lit SQUOTE; Re.Lit DQUOTE]))
             (Re.Seq (Re.Chars (Re.One (Re.Lit "."%char)))
                (Re.Plus (Re.One Re.Word)))))
       (Re.Opt quote)).

(** [(?:created|modified|updated|wrote|edited)\s+] followed by the tail. *)
Definition pattern_changed : Re.regex :=
  Re.Seq
    (Re.Alt (Re.Text "created")
       (Re.Alt (Re.Text "modified")
          (Re.Alt (Re.Text "updated")
             (Re.Alt (Re.Text "wrote") (Re.Text "edited")))))
    (Re.Seq (Re.Plus (Re.One Re.Space)) path_token).

(** [(?:writing to|saving)\s+] followed by the tail. *)
Definition pattern_writing : Re.regex :=
  Re.Seq
    (Re.Alt (Re.Text "writing to") (Re.Text "saving"))
    (Re.Seq (Re.Plus (Re.One Re.Space)) path_token).

Definition patterns : list Re.regex := [pattern_changed; pattern_writing].

(** [_extract_files_from_text(text)]: the loop extends [files] with what
    [re.findall(pattern, text, re.IGNORECASE)] finds for each pattern in
    turn, and [list(set(files))] is returned. *)
Definition _extract_files_from_text (text : string) : list string :=
  let files :=
    foldl (fun files pattern => files ++ Re.findall pattern text true) [] patterns in
  elements (list_to_set files : gset string).

(** [line] has "error" or "failed" in it, case-insensitively. *)
Definition error_like (line : string) : bool :=
  Str.contains "error" (Str.lower line) || Str.contains "failed" (Str.lower line).

Section Invoker.

(** The structured payload ([data]) of the inherited helpers; the
    Copilot invoker always passes [None]. *)
Variable payload : Type.

(** [BaseInvoker._extract_errors_from_output(data, stderr)] and
    [BaseInvoker._extract_warnings_from_output(data, stderr)]. *)
Variable _extract_errors_from_output : option payload -> string -> outcome (list string).
Variable _extract_warnings_from_output : option payload -> string -> outcome (list string).

(** The [if stderr.strip():] block: the pair (errors, warnings) after it. *)
Definition check_stderr (success : bool) (stderr : string)
    (errors warnings : list string) : outcome (list string * list string) :=
  if Str.truthy (Str.strip stderr) then
    errors ← (if negb success
              then _extract_errors_from_output None stderr
              else Returned errors);
    warnings ← _extract_warnings_from_output None stderr;
    Returned (errors, warnings)
  else Returned (errors, warnings).

(** The [if not success and not errors:] block: [errors] after it. *)
Definition check_stdout (success : bool) (stdout : string)
    (errors : list string) : list string :=
  if negb success && negb (bool_decide (errors <> [])) then
    let stdout_lower := Str.lower stdout in
    if Str.contains "error" stdout_lower || Str.contains "failed" stdout_lower then
      let error_lines :=
        map Str.strip (List.filter error_like (Str.split LF stdout)) in
      errors ++ take 3 error_lines
    else errors
  else errors.

(** [parse_output(stdout, stderr, exit_code, duration_seconds)] *)
Definition parse_output (stdout stderr : string) (exit_code : Z)
    (duration_seconds : float) : outcome InvocationResult :=
  let success := (exit_code =? 0)%Z in
  let files_modified := _extract_files_from_text stdout in
  let commits_made := [] in
  let errors := [] in
  let warnings := [] in
  ew ← check_stderr success stderr errors warnings;
  let errors := check_stdout success stdout (fst ew) in
  let warnings := snd ew in
  Returned {|
    success := success;
    exit_code := exit_code;
    stdout := stdout;
    stderr := stderr;
    duration_seconds := duration_seconds;
    files_modified := files_modified;
    commits_made := commits_made;
    errors := errors;
    warnings := warnings;
  |}.

End Invoker.

(** Stand-ins for the two inherited helpers, used only to run
    [parse_output] on concrete inputs: the first reports the stripped
    text as its single entry, the second reports nothing. *)
Definition report_stripped : option Empty_set -> string -> outcome (list string) :=
  fun _ text => Returned [Str.strip text].

Definition report_nothing : option Empty_set -> string -> outcome (list string) :=
  fun _ _ => Returned [].

(** Two lines of text, each ended by a newline. *)
Definition two_lines (l1 l2 : string) : string :=
  l1 +:+ String LF (l2 +:+ String LF "").

(** ** Vocabulary and sample data of the statements below *)

(** The verbs the two patterns start with. *)
Definition verbs : list string :=
  ["created"; "modified"; "updated"; "wrote"; "edited"; "writing to"; "saving"].


(** The stdout of scenario B: two lines, of which only the second has
    failed in it. *)
Definition scenario_B_stdout : string :=
  two_lines "Something went wrong" "Failed to compile".

(** The result of a run that failed with exit code 2 and a diagnostic
    on stderr, under the stand-in helpers. *)
Definition failed_run : InvocationResult :=
  {| success := false; exit_code := 2; stdout := "Created src/app.py";
     stderr := "fatal: boom"; duration_seconds := 1.5%float;
     files_modified := ["src/app.py"]; commits_made := [];
     errors := ["fatal: boom"]; warnings := [] |}.

(** * The wizard's helpers

    The pure and the input-driven helpers of
    [src/specify_cli/cli/commands/wizard.py]. *)

(** ** [re.sub] and [str.strip(chars)] *)

(** [re.sub(pattern, repl, s)] for a replacement text without escapes:
    the input is scanned from left to right, every match is replaced by
    [repl] and the scan resumes where the match ended ([skip] counts the
    characters of the current match still to be stepped over); a
    character at which no match starts is copied. Both patterns of
    [_slugify] need a character, so no match is attempted on the empty
    rest of the input. *)
Fixpoint sub_from (ignorecase : bool) (r : Re.regex) (repl s : string) (skip : nat)
    : string :=
  match s with
  | "" => ""
  | String x s' =>
      match skip with
      | S skip' => sub_from ignorecase r repl s' skip'
      | O =>
          match Re.match_here ignorecase r s with
          | Some (_, rest) =>
              repl +:+ sub_from ignorecase r repl s'
                         (String.length s - String.length rest - 1)
          | None => String x (sub_from ignorecase r repl s' 0)
          end
      end
  end.

Definition re_sub (r : Re.regex) (repl s : string) : string :=
  sub_from false r repl s 0.

(** [c in chars] *)
Fixpoint has_char (c : ascii) (chars : string) : bool :=
  match chars with
  | "" => false
  | String x chars' => Ascii.eqb c x || has_char c chars'
  end.

(** [s.lstrip(chars)], [s.rstrip(chars)] and [s.strip(chars)]. *)
Fixpoint lstrip_chars (chars s : string) : string :=
  match s with
  | "" => ""
  | String c s' => if has_char c chars then lstrip_chars chars s' else s
  end.

Fixpoint rstrip_chars (chars s : string) : string :=
  match s with
  | "" => ""
  | String c s' =>
      match rstrip_chars chars s' with
      | "" => if has_char c chars then "" else String c ""
      | r => String c r
      end
  end.

Definition strip_chars (chars s : string) : string :=
  rstrip_chars chars (lstrip_chars chars s).

(** ** [_slugify] *)

Definition HYPHEN : ascii := "-"%char.

(** [[^\w\s-]] *)
Definition not_slug_char : Re.regex :=
  Re.Chars (Re.NoneOf [Re.Word; Re.Space; Re.Lit HYPHEN]).

(** [[-\s]+] *)
Definition separators : Re.regex :=
  Re.Plus (Re.AnyOf [Re.Lit HYPHEN; Re.Space]).

(** [_slugify(text)] *)
Definition _slugify (text : string) : string :=
  let slug := Str.strip (Str.lower text) in
  let slug := re_sub not_slug_char "" slug in
  let slug := re_sub separators "-" slug in
  strip_chars "-" slug.

(** ** [_prompt_raw_notes] *)

(** The [while True] loop: [input] holds the lines that [input()] will
    return, in order, before it raises [EOFError]; [lines] is the loop's
    list. The loop ends on the second of two empty lines in a row, whose
    first is popped again, or at the end of the input. What the function
    prints has no part in the value it returns and is left out. *)
Fixpoint read_notes (input : list string) (lines : list string) : list string :=
  match input with
  | [] => lines
  | line :: input' =>
      if String.eqb line "" && bool_decide (lines <> [])
         && String.eqb (List.last lines "") ""
      then removelast lines
      else read_notes input' (lines ++ [line])
  end.

(** [_prompt_raw_notes()], as a function of the lines typed. *)
Definition _prompt_raw_notes (input : list string) : string :=
  String.concat (String LF "") (read_notes input []).

(** ** [_get_existing_features] *)

(** One entry of a directory: its name and whether [is_dir()] holds. *)
Record dir_entry : Type := {
  entry_name : string;
  entry_is_dir : bool;
}.

(** What is found at a path: nothing, something that is no directory, or
    a directory with its entries in the order [iterdir()] yields them. *)
Inductive node : Type :=
| Missing
| NotADirectory
| Directory (entries : list dir_entry).

(** An entry that is a directory and whose name does not start with a dot. *)
Definition visible_dir (d : dir_entry) : bool :=
  entry_is_dir d && negb (String.prefix "." (entry_name d)).

(** [_get_existing_features(repo_root)], as a function of what is found
    at [repo_root / kitty-specs]. [sorted] orders strings by code point;
    as that order is total and antisymmetric, the sorted list does not
    depend on the sorting method. *)
Definition _get_existing_features (kitty_specs : node) : outcome (list string) :=
  match kitty_specs with
  | Missing => Returned []
  | NotADirectory => Raised (Exception "NotADirectoryError" "")
  | Directory entries =>
      Returned (merge_sort String.le (map entry_name (List.filter visible_dir entries)))
  end.

(** ** Vocabulary of the statements about the wizard's helpers *)

(** Every character of [s] satisfies [p]. *)
Fixpoint all_chars (p : ascii -> bool) (s : string) : bool :=
  match s with
  | "" => true
  | String c s' => p c && all_chars p s'
  end.

(** The characters of [s] that satisfy [p], in their order. *)
Fixpoint only_chars (p : ascii -> bool) (s : string) : string :=
  match s with
  | "" => ""
  | String c s' => if p c then String c (only_chars p s') else only_chars p s'
  end.

(** A character a slug is made of: a word character that [lower] leaves
    alone, or a hyphen. *)
Definition slug_char (c : ascii) : bool :=
  (Chr.isword c && Ascii.eqb (Chr.lower c) c) || Ascii.eqb c HYPHEN.

(** Removal of the characters that satisfy [p] from the left end, and
    from the right end. *)
Fixpoint lstrip_by (p : ascii -> bool) (s : string) : string :=
  match s with
  | "" => ""
  | String c s' => if p c then lstrip_by p s' else s
  end.

Fixpoint rstrip_by (p : ascii -> bool) (s : string) : string :=
  match s with
  | "" => ""
  | String c s' =>
      match rstrip_by p s' with
      | "" => if p c then "" else String c ""
      | r => String c r
      end
  end.

(** Every maximal run of characters that satisfy [p] replaced by
    [repl]; [in_run] tells that the run has begun before [s]. *)
Fixpoint squeeze (p : ascii -> bool) (repl : string) (in_run : bool) (s : string)
    : string :=
  match s with
  | "" => ""
  | String x s' =>
      if p x then
        if in_run then squeeze p repl true s'
        else repl +:+ squeeze p repl true s'
      else String x (squeeze p repl false s')
  end.

(** The characters [not_slug_char] leaves in place, and those
    [separators] matches. *)
Definition kept (x : ascii) : bool :=
  Chr.isword x || Chr.isspace x || Ascii.eqb x HYPHEN.

Definition separator (x : ascii) : bool :=
  Ascii.eqb x HYPHEN || Chr.isspace x.

(** No two lines in a row are empty. *)
Fixpoint no_blank_pair (lines : list string) : bool :=
  match lines with
  | l1 :: ((l2 :: _) as rest) =>
      negb (String.eqb l1 "" && String.eqb l2 "") && no_blank_pair rest
  | _ => true
  end.

(** ** What a pattern matches, told without the matcher *)

(** [spans ic r s g g']: the pattern [r] matches the whole of [s], and
    group 1, whose text was [g] before, is [g'] after. *)
Inductive spans (ic : bool) : Re.regex -> string -> option string -> option string -> Prop :=
| spans_chars c x g :
    Re.class_matches ic c x = true ->
    spans ic (Re.Chars c) (String x "") g g
| spans_text lit s g :
    Re.eat_text ic lit s = Some "" ->
    spans ic (Re.Text lit) s g g
| spans_seq r1 r2 s1 s2 g g1 g2 :
    spans ic r1 s1 g g1 -> spans ic r2 s2 g1 g2 ->
    spans ic (Re.Seq r1 r2) (s1 +:+ s2) g g2
| spans_alt_l r1 r2 s g g1 :
    spans ic r1 s g g1 -> spans ic (Re.Alt r1 r2) s g g1
| spans_alt_r r1 r2 s g g1 :
    spans ic r2 s g g1 -> spans ic (Re.Alt r1 r2) s g g1
| spans_opt_none c g :
    spans ic (Re.Opt c) "" g g
| spans_opt_some c x g :
    Re.class_matches ic c x = true ->
    spans ic (Re.Opt c) (String x "") g g
| spans_plus c s g :
    s <> "" -> all_chars (Re.class_matches ic c) s = true ->
    spans ic (Re.Plus c) s g g
| spans_group r s g g1 :
    spans ic r s g g1 ->
    spans ic (Re.Group r) s g (Some s).

(** [re.IGNORECASE] reads [s] as [word]: the literal run [word],
    matched without regard to case, takes the whole of [s]. *)
Definition reads_as (word s : string) : Prop :=
  Re.eat_text true word s = Some "".

(** A character that may stand in the stem of a path: no whitespace and
    no quote. *)
Definition stem_char (c : ascii) : bool :=
  negb (Chr.isspace c || Ascii.eqb c SQUOTE || Ascii.eqb c DQUOTE).

(** A stand-in for an inherited helper that fails on every call. *)
Definition always_raises : option Empty_set -> string -> outcome (list string) :=
  fun _ _ => Raised (Exception "ValueError" "unexpected output").

(** * Properties *)

(** ** Shape of [parse_output] *)

Section InvokerFacts.

Context {payload : Type}.
Variables ee ew : option payload -> string -> outcome (list string).

(** Whatever [parse_output] returns is assembled from its arguments,
    the file extractor and the two blocks. *)
Lemma parse_output_returned out err ec d r :
  parse_output payload ee ew out err ec d = Returned r ->
  exists es ws,
    check_stderr payload ee ew (ec =? 0)%Z err [] [] = Returned (es, ws)
    /\ r = {| success := (ec =? 0)%Z; exit_code := ec; stdout := out;
              stderr := err; duration_seconds := d;
              files_modified := _extract_files_from_text out;
              commits_made := [];
              errors := check_stdout (ec =? 0)%Z out es;
              warnings := ws |}.
Proof.
  unfold parse_output.
  destruct (check_stderr payload ee ew (ec =? 0)%Z err [] []) as [[es ws]|e];
    simpl; intros H; [|discriminate].
  injection H as <-. by exists es, ws.
Qed.

(** An exception leaves [parse_output] only when a helper raised it on
    the stderr text. *)
Lemma parse_output_raised out err ec d e :
  parse_output payload ee ew out err ec d = Raised e ->
  ee None err = Raised e \/ ew None err = Raised e.
Proof.
  unfold parse_output, check_stderr.
  destruct (Str.truthy (Str.strip err)); simpl; [|discriminate].
  destruct (negb (ec =? 0)%Z); simpl.
  - destruct (ee None err) as [es|e1]; simpl.
    + destruct (ew None err) as [ws|e2]; simpl; [discriminate|].
      intros [= ->]. by right.
    + intros [= ->]. by left.
  - destruct (ew None err) as [ws|e2]; simpl; [discriminate|].
    intros [= ->]. by right.
Qed.

(** With a blank stderr the helpers are not called at all. *)
Lemma check_stderr_blank ok err es ws :
  Str.strip err = "" ->
  check_stderr payload ee ew ok err es ws = Returned (es, ws).
Proof. unfold check_stderr. by intros ->. Qed.

Lemma check_stderr_success err es ws :
  check_stderr payload ee ew true err es ws =
    if Str.truthy (Str.strip err)
    then ws' ← ew None err; Returned (es, ws')
    else Returned (es, ws).
Proof. unfold check_stderr. by destruct (Str.truthy _). Qed.

Lemma check_stderr_failure err es ws :
  check_stderr payload ee ew false err es ws =
    if Str.truthy (Str.strip err)
    then es' ← ee None err; ws' ← ew None err; Returned (es', ws')
    else Returned (es, ws).
Proof. unfold check_stderr. by destruct (Str.truthy _). Qed.

End InvokerFacts.

(** The stdout block leaves a non-empty error list alone, and never runs
    after a success. *)
Lemma check_stdout_success out es : check_stdout true out es = es.
Proof. reflexivity. Qed.

Lemma check_stdout_nonempty ok out es : es <> [] -> check_stdout ok out es = es.
Proof.
  intros Hne. unfold check_stdout.
  rewrite (bool_decide_eq_true_2 _ Hne). by rewrite andb_false_r.
Qed.

Lemma check_stdout_fallback out :
  check_stdout false out [] =
    if error_like out
    then take 3 (map Str.strip (List.filter error_like (Str.split LF out)))
    else [].
Proof. reflexivity. Qed.

(** ** Facts about the [str] methods *)

Example split_trailing_newline : Str.split LF (two_lines "a" "b") = ["a"; "b"; ""].
Proof. reflexivity. Qed.

Example strip_both_ends : Str.strip "  Failed to compile  " = "Failed to compile".
Proof. reflexivity. Qed.

Example lower_mixed : Str.lower "Failed: ERROR" = "failed: error".
Proof. reflexivity. Qed.

Lemma truthy_true s : Str.truthy s = true <-> s <> "".
Proof. by destruct s. Qed.

Lemma truthy_false s : Str.truthy s = false <-> s = "".
Proof. by destruct s. Qed.

Lemma lstrip_first s c : Str.first (Str.lstrip s) = Some c -> Chr.isspace c = false.
Proof.
  induction s as [|x s IH]; simpl; [done|].
  destruct (Chr.isspace x) eqn:Hx; [done|].
  simpl. by intros [= <-].
Qed.

(** [rstrip] only removes characters from the end. *)
Lemma rstrip_first s : Str.rstrip s <> "" -> Str.first (Str.rstrip s) = Str.first s.
Proof.
  destruct s as [|x s]; simpl; [done|].
  destruct (Str.rstrip s); [|done].
  by destruct (Chr.isspace x).
Qed.

Lemma rstrip_last s c : Str.last (Str.rstrip s) = Some c -> Chr.isspace c = false.
Proof.
  induction s as [|x s IH]; simpl; [done|].
  destruct (Str.rstrip s) as [|y r] eqn:Hr.
  - destruct (Chr.isspace x) eqn:Hx; simpl; [done|]. by intros [= <-].
  - intros H. apply IH. exact H.
Qed.

Lemma strip_trimmed s : Str.trimmed (Str.strip s).
Proof.
  unfold Str.trimmed, Str.strip. split; intros c Hc.
  - destruct (Str.rstrip (Str.lstrip s)) as [|y r] eqn:Hr; [done|].
    apply (lstrip_first s). rewrite <- rstrip_first; [by rewrite Hr|].
    by rewrite Hr.
  - by apply (rstrip_last (Str.lstrip s)).
Qed.

(** ** The fallback scan of stdout *)

(** The candidate lines of the fallback scan. *)
Lemma error_lines_spec out e :
  e ∈ map Str.strip (List.filter error_like (Str.split LF out)) <->
  exists line, line ∈ Str.split LF out /\ error_like line = true /\ e = Str.strip line.
Proof.
  rewrite list_elem_of_In, in_map_iff. split.
  - intros (line & <- & Hin). apply filter_In in Hin as [Hin Hlike].
    exists line. by rewrite list_elem_of_In.
  - intros (line & Hin & Hlike & ->). exists line. split; [done|].
    apply filter_In. by rewrite <- list_elem_of_In.
Qed.

Lemma error_like_spec line :
  error_like line = true <->
  Str.contains "error" (Str.lower line) = true
  \/ Str.contains "failed" (Str.lower line) = true.
Proof. unfold error_like. apply orb_true_iff. Qed.

Lemma check_stdout_fallback_length out : length (check_stdout false out []) <= 3.
Proof.
  rewrite check_stdout_fallback. destruct (error_like out); simpl; [|lia].
  rewrite length_take. lia.
Qed.

Lemma check_stdout_fallback_elem out e :
  e ∈ check_stdout false out [] ->
  exists line, line ∈ Str.split LF out /\ error_like line = true /\ e = Str.strip line.
Proof.
  rewrite check_stdout_fallback. destruct (error_like out).
  - intros Hin. apply error_lines_spec. revert Hin. apply subseteq_take.
  - by intros ?%not_elem_of_nil.
Qed.

(** ** The claims about [parse_output] and [build_command] *)

Example failed_run_parsed :
  parse_output Empty_set report_stripped report_nothing
    "Created src/app.py" "fatal: boom" 2 1.5%float = Returned failed_run.
Proof. vm_compute. reflexivity. Qed.

(** C1. The verdict of [parse_output] is the test [exit_code == 0] and
    nothing else: whenever a result is returned, its [success] equals that
    test, so it is false for every non-zero exit code and true for exit
    code zero whatever stdout and stderr contain. *)
Theorem parse_output_success_is_exit_zero
    (payload : Type) (ee ew : option payload -> string -> outcome (list string))
    (out err : string) (ec : Z) (d : float) (r : InvocationResult) :
  parse_output payload ee ew out err ec d = Returned r ->
  success r = (ec =? 0)%Z
  /\ (ec <> 0%Z -> success r = false)
  /\ (ec = 0%Z -> success r = true).
Proof.
  intros (es & ws & _ & ->)%parse_output_returned. simpl.
  split; [done|]. split.
  - intros Hne. by apply Z.eqb_neq.
  - intros ->. reflexivity.
Qed.

Lemma parse_output_success_is_exit_zero_witness :
  success failed_run = (2 =? 0)%Z
  /\ (2 <> 0 -> success failed_run = false)%Z
  /\ (2 = 0 -> success failed_run = true)%Z.
Proof.
  apply (parse_output_success_is_exit_zero Empty_set report_stripped report_nothing
           "Created src/app.py" "fatal: boom" 2 1.5%float failed_run).
  vm_compute. reflexivity.
Defined.

(** C10. [parse_output] never reports a commit: whenever a result is
    returned, its [commits_made] is the empty list, whatever the output
    text mentions. *)
Theorem parse_output_no_commits
    (payload : Type) (ee ew : option payload -> string -> outcome (list string))
    (out err : string) (ec : Z) (d : float) (r : InvocationResult) :
  parse_output payload ee ew out err ec d = Returned r ->
  commits_made r = [].
Proof. by intros (es & ws & _ & ->)%parse_output_returned. Qed.

Lemma parse_output_no_commits_witness :
  commits_made
    {| success := true; exit_code := 0; stdout := "commit 3f2a1bc: fix parser";
       stderr := ""; duration_seconds := 0%float; files_modified := [];
       commits_made := []; errors := []; warnings := [] |} = [].
Proof.
  apply (parse_output_no_commits Empty_set report_stripped report_nothing
           "commit 3f2a1bc: fix parser" "" 0 0%float).
  vm_compute. reflexivity.
Defined.

(** C9. [build_command] returns the five tokens copilot, -p, the prompt,
    --yolo and -s, in that order; the working directory and the role play
    no part in it. *)
Theorem build_command_vector (prompt working_dir role : string) :
  build_command prompt working_dir role = ["copilot"; "-p"; prompt; "--yolo"; "-s"]
  /\ length (build_command prompt working_dir role) = 5
  /\ forall working_dir' role' : string,
       build_command prompt working_dir' role' = build_command prompt working_dir role.
Proof. by repeat split. Qed.

(** [parse_output] raises nothing of its own: if the two inherited
    helpers return on the stderr text then [parse_output] returns a
    result, which carries the four arguments unchanged. Whether the
    helpers return is decided in [BaseInvoker]. *)
Theorem parse_output_returns
    (payload : Type) (ee ew : option payload -> string -> outcome (list string))
    (out err : string) (ec : Z) (d : float) :
  (exists es, ee None err = Returned es) ->
  (exists ws, ew None err = Returned ws) ->
  exists r, parse_output payload ee ew out err ec d = Returned r
    /\ stdout r = out /\ stderr r = err /\ exit_code r = ec
    /\ duration_seconds r = d.
Proof.
  intros [es Hes] [ws Hws]. unfold parse_output, check_stderr.
  rewrite Hes, Hws.
  destruct (Str.truthy (Str.strip err)), (negb (ec =? 0)%Z); simpl;
    eexists; (split; [reflexivity|]); by simpl.
Qed.

Lemma parse_output_returns_witness :
  exists r, parse_output Empty_set report_stripped report_nothing
              "" (String "255" (String "000" "'")) (-9) 0%float = Returned r
    /\ stdout r = "" /\ stderr r = String "255" (String "000" "'")
    /\ exit_code r = (-9)%Z /\ duration_seconds r = 0%float.
Proof.
  apply (parse_output_returns Empty_set report_stripped report_nothing).
  - eexists. reflexivity.
  - eexists. reflexivity.
Defined.

(** C5. After a non-zero exit code and with an empty stderr, a result is
    returned whose [errors] has at most three entries, each of them a
    line of stdout that has error or failed in it (in any letter case),
    with the whitespace at both of its ends removed. *)
Theorem fallback_errors_from_stdout
    (payload : Type) (ee ew : option payload -> string -> outcome (list string))
    (out : string) (ec : Z) (d : float) :
  ec <> 0%Z ->
  exists r, parse_output payload ee ew out "" ec d = Returned r
    /\ length (errors r) <= 3
    /\ forall e, e ∈ errors r ->
         exists line, line ∈ Str.split LF out
           /\ (Str.contains "error" (Str.lower line) = true
               \/ Str.contains "failed" (Str.lower line) = true)
           /\ e = Str.strip line
           /\ Str.trimmed e.
Proof.
  intros Hec%Z.eqb_neq. eexists. split.
  { unfold parse_output. rewrite check_stderr_blank by reflexivity.
    simpl. reflexivity. }
  simpl. rewrite Hec. split.
  - apply check_stdout_fallback_length.
  - intros e (line & Hin & Hlike & ->)%check_stdout_fallback_elem.
    exists line. split; [done|]. split; [by apply error_like_spec|].
    split; [done|]. apply strip_trimmed.
Qed.

Lemma fallback_errors_from_stdout_witness :
  exists r, parse_output Empty_set report_stripped report_nothing
              (two_lines "  ERROR: one " "ok"
               +:+ two_lines "build Failed" "error 3"
               +:+ two_lines "error 4" "fine") "" 1 0%float = Returned r
    /\ length (errors r) <= 3
    /\ forall e, e ∈ errors r ->
         exists line, line ∈ Str.split LF
                        (two_lines "  ERROR: one " "ok"
                         +:+ two_lines "build Failed" "error 3"
                         +:+ two_lines "error 4" "fine")
           /\ (Str.contains "error" (Str.lower line) = true
               \/ Str.contains "failed" (Str.lower line) = true)
           /\ e = Str.strip line
           /\ Str.trimmed e.
Proof.
  apply (fallback_errors_from_stdout Empty_set report_stripped report_nothing). lia.
Defined.

Example fallback_keeps_first_three :
  forall r,
    parse_output Empty_set report_stripped report_nothing
      (two_lines "  ERROR: one " "ok"
       +:+ two_lines "build Failed" "error 3"
       +:+ two_lines "error 4" "fine") "" 1 0%float = Returned r ->
    errors r = ["ERROR: one"; "build Failed"; "error 3"].
Proof. intros r. vm_compute. by intros [= <-]. Qed.

(** *** Scenario B *)

Example scenario_B_lines :
  Str.split LF scenario_B_stdout = ["Something went wrong"; "Failed to compile"; ""]
  /\ error_like "Something went wrong" = false
  /\ error_like "Failed to compile" = true.
Proof. by vm_compute. Qed.

(** C3, as stated, fails: on the stdout of scenario B with an
    empty stderr and exit code 1, no choice of the inherited helpers
    makes [parse_output] return two errors. *)
Lemma scenario_B_not_two_errors :
  ~ (exists (payload : Type) (ee ew : option payload -> string -> outcome (list string))
            (d : float) (r : InvocationResult),
       parse_output payload ee ew scenario_B_stdout "" 1 d = Returned r
       /\ length (errors r) = 2).
Proof.
  intros (payload & ee & ew & d & r & Hr & Hlen).
  apply parse_output_returned in Hr as (es & ws & Hs & ->).
  rewrite check_stderr_blank in Hs by reflexivity.
  injection Hs as <- <-. vm_compute in Hlen. discriminate.
Qed.

(** C3, amended. On the stdout of scenario B with an empty stderr and
    exit code 1, [parse_output] returns a failure whose [errors] is the one
    line that has failed in it, stripped: the other line has neither
    error nor failed in it and is left out. *)
Theorem scenario_B_one_error
    (payload : Type) (ee ew : option payload -> string -> outcome (list string))
    (d : float) :
  exists r, parse_output payload ee ew scenario_B_stdout "" 1 d = Returned r
    /\ success r = false
    /\ errors r = ["Failed to compile"]
    /\ length (errors r) = 1.
Proof.
  eexists. split.
  { unfold parse_output. rewrite check_stderr_blank by reflexivity.
    simpl. reflexivity. }
  by vm_compute.
Qed.

(** *** A zero exit code *)

(** C2, as stated, fails: stdout below has failed and error in it and
    the exit code is zero, yet no choice of the inherited helpers makes
    [parse_output] return a warning. *)
Lemma stdout_indicator_gives_no_warning :
  error_like "Build failed: 2 errors" = true
  /\ ~ (exists (payload : Type) (ee ew : option payload -> string -> outcome (list string))
              (d : float) (r : InvocationResult),
         parse_output payload ee ew "Build failed: 2 errors" "" 0 d = Returned r
         /\ warnings r <> []).
Proof.
  split; [reflexivity|].
  intros (payload & ee & ew & d & r & Hr & Hw).
  apply parse_output_returned in Hr as (es & ws & Hs & ->).
  rewrite check_stderr_blank in Hs by reflexivity.
  injection Hs as <- <-. by apply Hw.
Qed.

(** C2, amended. With exit code zero the result is a success with no
    error, whatever stdout contains, and stdout is not scanned for
    warnings: [warnings] is empty when stderr is blank, is what the
    inherited warning helper returns for stderr otherwise, and stays the
    same when stdout is replaced by any other text. *)
Theorem zero_exit_ignores_stdout_indicators
    (payload : Type) (ee ew : option payload -> string -> outcome (list string))
    (out err : string) (d : float) (r : InvocationResult) :
  parse_output payload ee ew out err 0 d = Returned r ->
  success r = true
  /\ errors r = []
  /\ (Str.strip err = "" -> warnings r = [])
  /\ (Str.strip err <> "" -> ew None err = Returned (warnings r))
  /\ forall out', exists r',
        parse_output payload ee ew out' err 0 d = Returned r'
        /\ warnings r' = warnings r.
Proof.
  intros Hr. pose proof Hr as (es & ws & Hs & ->)%parse_output_returned.
  change (0 =? 0)%Z with true in *. rewrite check_stderr_success in Hs.
  simpl. split; [done|].
  assert (es = []) as ->.
  { destruct (Str.truthy (Str.strip err)); [|by injection Hs].
    destruct (ew None err); simpl in Hs; [by injection Hs|discriminate]. }
  split; [done|]. split; [|split].
  - intros Hblank. apply truthy_false in Hblank. rewrite Hblank in Hs.
    by injection Hs.
  - intros Hfull. apply truthy_true in Hfull. rewrite Hfull in Hs.
    destruct (ew None err); simpl in Hs; [|discriminate].
    by injection Hs as ->.
  - intros out'. eexists. split.
    + unfold parse_output. change (0 =? 0)%Z with true.
      rewrite check_stderr_success, Hs. simpl. reflexivity.
    + reflexivity.
Qed.

Lemma zero_exit_ignores_stdout_indicators_witness :
  let r := {| success := true; exit_code := 0; stdout := "Build failed: 2 errors";
              stderr := " deprecated flag "; duration_seconds := 0%float;
              files_modified := []; commits_made := []; errors := [];
              warnings := ["deprecated flag"] |} in
  success r = true
  /\ errors r = []
  /\ (Str.strip " deprecated flag " = "" -> warnings r = [])
  /\ (Str.strip " deprecated flag " <> "" ->
      report_stripped None " deprecated flag " = Returned (warnings r))
  /\ forall out', exists r',
        parse_output Empty_set report_nothing report_stripped
          out' " deprecated flag " 0 0%float = Returned r'
        /\ warnings r' = warnings r.
Proof.
  apply (zero_exit_ignores_stdout_indicators Empty_set report_nothing report_stripped
           "Build failed: 2 errors" " deprecated flag " 0%float).
  vm_compute. reflexivity.
Defined.

(** *** A non-zero exit code with text on stderr *)

Example blank_stderr_scans_stdout :
  forall r,
    parse_output Empty_set report_stripped report_stripped
      "error: disk full" " " 1 0%float = Returned r ->
    errors r = ["error: disk full"].
Proof. intros r. vm_compute. by intros [= <-]. Qed.

(** C4, as stated, fails: with exit code 1 and a stderr of one space
    (not empty), replacing stdout alone changes [errors], whatever the
    inherited helpers are: stdout is scanned. *)
Lemma blank_stderr_errors_follow_stdout :
  " " <> ""
  /\ ~ (exists (payload : Type) (ee ew : option payload -> string -> outcome (list string))
              (d : float) (r r' : InvocationResult),
         parse_output payload ee ew "error: disk full" " " 1 d = Returned r
         /\ parse_output payload ee ew "all quiet" " " 1 d = Returned r'
         /\ errors r = errors r').
Proof.
  split; [done|].
  intros (payload & ee & ew & d & r & r' & Hr & Hr' & Heq).
  apply parse_output_returned in Hr as (es & ws & Hs & ->).
  apply parse_output_returned in Hr' as (es' & ws' & Hs' & ->).
  rewrite check_stderr_blank in Hs by reflexivity.
  rewrite check_stderr_blank in Hs' by reflexivity.
  injection Hs as <- <-. injection Hs' as <- <-.
  vm_compute in Heq. discriminate.
Qed.

(** C4, amended. After a non-zero exit code, when stderr is not blank
    (something is left of it once stripped) and the inherited error helper
    returns at least one entry for it, [errors] is exactly what that
    helper returned for stderr, whatever stdout contains. *)
Theorem stderr_errors_take_precedence
    (payload : Type) (ee ew : option payload -> string -> outcome (list string))
    (out err : string) (ec : Z) (d : float)
    (es : list string) (r : InvocationResult) :
  ec <> 0%Z ->
  Str.strip err <> "" ->
  ee None err = Returned es ->
  es <> [] ->
  parse_output payload ee ew out err ec d = Returned r ->
  errors r = es.
Proof.
  intros Hec%Z.eqb_neq Hfull%truthy_true Hes Hne
    (es' & ws & Hs & ->)%parse_output_returned.
  rewrite Hec, check_stderr_failure, Hfull, Hes in Hs. simpl in *.
  destruct (ew None err); simpl in Hs; [|discriminate].
  injection Hs as <- <-. by apply check_stdout_nonempty.
Qed.

Lemma stderr_errors_take_precedence_witness :
  errors
    {| success := false; exit_code := 1; stdout := "error: disk full";
       stderr := "fatal: boom"; duration_seconds := 0%float;
       files_modified := []; commits_made := [];
       errors := ["fatal: boom"]; warnings := [] |} = ["fatal: boom"].
Proof.
  apply (stderr_errors_take_precedence Empty_set report_stripped report_nothing
           "error: disk full" "fatal: boom" 1 0%float).
  - lia.
  - vm_compute. discriminate.
  - reflexivity.
  - discriminate.
  - vm_compute. reflexivity.
Defined.

(** ** The file-path extractor *)

Example both_patterns_hit :
  Re.findall pattern_changed "Created notes.txt, now saving notes.txt" true = ["notes.txt"]
  /\ Re.findall pattern_writing "Created notes.txt, now saving notes.txt" true = ["notes.txt"]
  /\ _extract_files_from_text "Created notes.txt, now saving notes.txt" = ["notes.txt"].
Proof. by vm_compute. Qed.

(** The extractor returns the paths the two patterns find, and only those. *)
Lemma extracted_files_spec text path :
  path ∈ _extract_files_from_text text <->
  path ∈ Re.findall pattern_changed text true
  \/ path ∈ Re.findall pattern_writing text true.
Proof.
  unfold _extract_files_from_text, patterns. simpl.
  rewrite elem_of_elements, elem_of_list_to_set, elem_of_app. done.
Qed.

(** Scenario A: two files, one per line. *)
Example scenario_A_files :
  forall path,
    path ∈ _extract_files_from_text (two_lines "Created src/app.py" "Modified src/util.py")
    <-> path = "src/app.py" \/ path = "src/util.py".
Proof.
  intros path. rewrite extracted_files_spec.
  change (Re.findall pattern_changed _ true) with ["src/app.py"; "src/util.py"].
  change (Re.findall pattern_writing _ true) with (@nil string).
  rewrite !elem_of_cons, elem_of_nil. tauto.
Qed.

Example quoted_and_dotted :
  Re.findall pattern_changed "WROTE 'b.tar.gz' and updated   a.b.c. edited noext" true
  = ["b.tar.gz"; "a.b.c"].
Proof. by vm_compute. Qed.

(** C7. The list returned by [_extract_files_from_text] has no path
    twice, for every text, and so has the [files_modified] of every
    result of [parse_output]. *)
Theorem extracted_files_no_duplicates (text : string) :
  NoDup (_extract_files_from_text text)
  /\ forall (payload : Type) (ee ew : option payload -> string -> outcome (list string))
       (err : string) (ec : Z) (d : float) (r : InvocationResult),
       parse_output payload ee ew text err ec d = Returned r ->
       NoDup (files_modified r).
Proof.
  assert (NoDup (_extract_files_from_text text)) as Hnd
    by (unfold _extract_files_from_text; apply NoDup_elements).
  split; [done|].
  by intros payload ee ew err ec d r (es & ws & _ & ->)%parse_output_returned.
Qed.

Lemma extracted_files_no_duplicates_witness :
  NoDup (_extract_files_from_text "Created notes.txt, now saving notes.txt")
  /\ NoDup (files_modified
             {| success := true; exit_code := 0;
                stdout := "Created notes.txt, now saving notes.txt";
                stderr := ""; duration_seconds := 0%float;
                files_modified := ["notes.txt"]; commits_made := [];
                errors := []; warnings := [] |}).
Proof.
  destruct (extracted_files_no_duplicates "Created notes.txt, now saving notes.txt")
    as [Hlist Hresult].
  split; [exact Hlist|].
  apply (Hresult Empty_set report_stripped report_nothing "" 0%Z 0%float).
  vm_compute. reflexivity.
Defined.

(** *** Texts without a verb *)

Lemma contains_prefix needle s :
  String.prefix needle s = true -> Str.contains needle s = true.
Proof. intros H. destruct s; cbn [Str.contains]; by rewrite H. Qed.

Lemma contains_tail needle c s :
  Str.contains needle (String c s) = false -> Str.contains needle s = false.
Proof. cbn [Str.contains]. by intros [_ ?]%orb_false_iff. Qed.

Example creating_is_no_verb :
  Re.eat_text true "created" "creating file notes.txt" = None
  /\ Re.match_here true pattern_changed "creating file notes.txt" = None
  /\ Re.match_here true pattern_writing "creating file notes.txt" = None.
Proof. by vm_compute. Qed.


(** * Properties of the wizard's helpers *)

(** ** Characters *)

Lemma word_not_space c : Chr.isword c = true -> Chr.isspace c = false.
Proof. destruct c as [[] [] [] [] [] [] [] []]; vm_compute; congruence. Qed.

Lemma isword_lower c : Chr.isword (Chr.lower c) = Chr.isword c.
Proof. by destruct c as [[] [] [] [] [] [] [] []]. Qed.

Lemma lower_lower c : Chr.lower (Chr.lower c) = Chr.lower c.
Proof. by destruct c as [[] [] [] [] [] [] [] []]. Qed.

Lemma hyphen_eqb c : Ascii.eqb c HYPHEN = true <-> c = HYPHEN.
Proof. apply Ascii.eqb_eq. Qed.

Lemma kept_spec x :
  negb (Re.class_matches false (Re.NoneOf [Re.Word; Re.Space; Re.Lit HYPHEN]) x) = kept x.
Proof.
  unfold kept. simpl. unfold Re.fold_case.
  rewrite negb_involutive, orb_false_r, orb_assoc. reflexivity.
Qed.

Lemma separator_spec x :
  Re.class_matches false (Re.AnyOf [Re.Lit HYPHEN; Re.Space]) x = separator x.
Proof. unfold separator. simpl. unfold Re.fold_case. by rewrite orb_false_r. Qed.

Lemma slug_char_kept c : slug_char c = true -> kept c = true.
Proof.
  unfold slug_char, kept. intros [[-> _]%andb_true_iff| ->]%orb_true_iff; [done|].
  by rewrite orb_true_r.
Qed.

Lemma slug_char_lower c : slug_char c = true -> Chr.lower c = c.
Proof.
  unfold slug_char. intros [[_ H]%andb_true_iff|H]%orb_true_iff.
  - by apply Ascii.eqb_eq.
  - by apply hyphen_eqb in H as ->.
Qed.

Lemma slug_char_separator c :
  slug_char c = true -> separator c = true -> c = HYPHEN.
Proof.
  unfold slug_char, separator.
  intros [[Hw _]%andb_true_iff|H]%orb_true_iff; [|intros _; by apply hyphen_eqb].
  intros [H|H]%orb_true_iff; [by apply hyphen_eqb|].
  apply word_not_space in Hw. congruence.
Qed.

Lemma slug_char_word c : slug_char c = true -> c <> HYPHEN -> Chr.isword c = true.
Proof.
  unfold slug_char. intros [[Hw _]%andb_true_iff|H]%orb_true_iff Hne; [done|].
  by apply hyphen_eqb in H.
Qed.

(** ** [re.sub] on the two patterns of [_slugify] *)

Lemma append_nil_l t : "" +:+ t = t.
Proof. reflexivity. Qed.

Lemma append_cons c s t : String c s +:+ t = String c (s +:+ t).
Proof. reflexivity. Qed.

Lemma only_chars_ext p q s :
  (forall x, p x = q x) -> only_chars p s = only_chars q s.
Proof. intros Hpq. induction s as [|c s IH]; simpl; [done|]. by rewrite Hpq, IH. Qed.

Lemma squeeze_ext p q repl b s :
  (forall x, p x = q x) -> squeeze p repl b s = squeeze q repl b s.
Proof.
  intros Hpq. revert b. induction s as [|c s IH]; intros b; simpl; [done|].
  by rewrite Hpq, !IH.
Qed.

Lemma lstrip_by_length p s : String.length (lstrip_by p s) <= String.length s.
Proof. induction s as [|c s IH]; simpl; [done|]. destruct (p c); simpl; lia. Qed.

(** Replacing every character of a class by nothing removes them. *)
Lemma sub_chars_removes c s :
  re_sub (Re.Chars c) "" s = only_chars (fun x => negb (Re.class_matches false c x)) s.
Proof.
  unfold re_sub. induction s as [|x s IH]; [done|].
  cbn [sub_from only_chars]. unfold Re.match_here. cbn [Re.exec].
  destruct (Re.class_matches false c x); cbn [negb].
  - rewrite append_nil_l.
    replace (String.length (String x s) - String.length s - 1) with 0
      by (simpl; lia).
    exact IH.
  - by rewrite IH.
Qed.

(** A greedy [c*] whose continuation accepts takes the whole run. *)
Lemma star_takes_run c s :
  Re.star false c s (fun s' => Some (@None string, s'))
  = Some (None, lstrip_by (Re.class_matches false c) s).
Proof.
  induction s as [|x s IH]; [done|]. cbn [Re.star lstrip_by].
  destruct (Re.class_matches false c x); [|done]. by rewrite IH.
Qed.

(** Replacing every match of [c+] squeezes the runs of the class. *)
Lemma sub_plus_squeezes c repl s :
  sub_from false (Re.Plus c) repl s 0
    = squeeze (Re.class_matches false c) repl false s
  /\ sub_from false (Re.Plus c) repl s
       (String.length s - String.length (lstrip_by (Re.class_matches false c) s))
    = squeeze (Re.class_matches false c) repl true s.
Proof.
  induction s as [|x s [IH0 IH1]]; [done|].
  pose proof (lstrip_by_length (Re.class_matches false c) s) as Hlen.
  split.
  - cbn [sub_from squeeze]. unfold Re.match_here. cbn [Re.exec Re.plus].
    destruct (Re.class_matches false c x).
    + rewrite star_takes_run.
      replace (String.length (String x s)
               - String.length (lstrip_by (Re.class_matches false c) s) - 1)
        with (String.length s
              - String.length (lstrip_by (Re.class_matches false c) s))
        by (simpl; lia).
      by rewrite IH1.
    + by rewrite IH0.
  - cbn [lstrip_by squeeze].
    destruct (Re.class_matches false c x) eqn:Hx.
    + replace (String.length (String x s)
               - String.length (lstrip_by (Re.class_matches false c) s))
        with (S (String.length s
                 - String.length (lstrip_by (Re.class_matches false c) s)))
        by (simpl; lia).
      cbn [sub_from]. exact IH1.
    + replace (String.length (String x s) - String.length (String x s)) with 0
        by lia.
      cbn [sub_from]. unfold Re.match_here. cbn [Re.exec Re.plus].
      rewrite Hx. by rewrite IH0.
Qed.

Lemma lstrip_chars_hyphen s :
  lstrip_chars "-" s = lstrip_by (fun c => Ascii.eqb c HYPHEN) s.
Proof.
  induction s as [|c s IH]; simpl; [done|].
  rewrite orb_false_r, IH. reflexivity.
Qed.

Lemma rstrip_chars_hyphen s :
  rstrip_chars "-" s = rstrip_by (fun c => Ascii.eqb c HYPHEN) s.
Proof.
  induction s as [|c s IH]; simpl; [done|].
  rewrite orb_false_r, IH. reflexivity.
Qed.

Lemma str_lstrip_by s : Str.lstrip s = lstrip_by Chr.isspace s.
Proof. induction s as [|c s IH]; simpl; [done|]. by rewrite IH. Qed.

Lemma str_rstrip_by s : Str.rstrip s = rstrip_by Chr.isspace s.
Proof. induction s as [|c s IH]; simpl; [done|]. by rewrite IH. Qed.

(** [_slugify], step by step, without the matcher. *)
Lemma slugify_steps text :
  _slugify text =
    rstrip_by (fun c => Ascii.eqb c HYPHEN)
      (lstrip_by (fun c => Ascii.eqb c HYPHEN)
         (squeeze separator "-" false
            (only_chars kept
               (rstrip_by Chr.isspace (lstrip_by Chr.isspace (Str.lower text)))))).
Proof.
  unfold _slugify, strip_chars, Str.strip, not_slug_char, separators.
  rewrite rstrip_chars_hyphen, lstrip_chars_hyphen.
  rewrite sub_chars_removes. unfold re_sub.
  rewrite (proj1 (sub_plus_squeezes _ _ _)).
  rewrite (squeeze_ext _ separator) by apply separator_spec.
  rewrite (only_chars_ext _ kept) by apply kept_spec.
  by rewrite str_rstrip_by, str_lstrip_by.
Qed.

(** ** The steps of [_slugify], one by one *)

Lemma all_chars_impl (p q : ascii -> bool) s :
  (forall x, p x = true -> q x = true) ->
  all_chars p s = true -> all_chars q s = true.
Proof.
  intros Hpq. induction s as [|c s IH]; simpl; [done|].
  intros [Hc Hs]%andb_true_iff. by rewrite (Hpq _ Hc), IH.
Qed.

Lemma all_chars_app p s t :
  all_chars p (s +:+ t) = all_chars p s && all_chars p t.
Proof.
  induction s as [|c s IH]; [done|].
  rewrite append_cons. simpl. by rewrite IH, andb_assoc.
Qed.

Lemma all_chars_first p s c :
  all_chars p s = true -> Str.first s = Some c -> p c = true.
Proof. destruct s; simpl; [done|]. by intros [? _]%andb_true_iff [= <-]. Qed.

Lemma all_chars_last p s c :
  all_chars p s = true -> Str.last s = Some c -> p c = true.
Proof.
  induction s as [|x s IH]; [done|].
  intros [Hx Hs]%andb_true_iff. destruct s as [|y s]; [by intros [= <-]|].
  intros Hlast. by apply IH.
Qed.

Lemma lower_all_fixed s :
  all_chars (fun c => Ascii.eqb (Chr.lower c) c) (Str.lower s) = true.
Proof.
  induction s as [|c s IH]; simpl; [done|].
  by rewrite lower_lower, Ascii.eqb_refl, IH.
Qed.

Lemma all_chars_lstrip_by p q s :
  all_chars q s = true -> all_chars q (lstrip_by p s) = true.
Proof.
  induction s as [|c s IH]; simpl; [done|].
  intros Hcs. destruct (p c); [|done].
  apply andb_true_iff in Hcs as [_ Hs]. by apply IH.
Qed.

Lemma all_chars_rstrip_by p q s :
  all_chars q s = true -> all_chars q (rstrip_by p s) = true.
Proof.
  induction s as [|c s IH]; simpl; [done|].
  intros [Hc Hs]%andb_true_iff. specialize (IH Hs).
  destruct (rstrip_by p s) as [|y r].
  - destruct (p c); simpl; [done|]. by rewrite Hc.
  - change (q c && all_chars q (String y r) = true). by rewrite Hc, IH.
Qed.

Lemma all_chars_only_chars p q s :
  all_chars q s = true -> all_chars (fun c => q c && p c) (only_chars p s) = true.
Proof.
  induction s as [|c s IH]; simpl; [done|].
  intros [Hc Hs]%andb_true_iff. destruct (p c) eqn:Hp; [|by apply IH].
  simpl. by rewrite Hc, Hp, IH.
Qed.

Lemma all_chars_squeeze (p q q' : ascii -> bool) repl b s :
  (forall x, q x = true -> p x = false -> q' x = true) ->
  all_chars q' repl = true ->
  all_chars q s = true ->
  all_chars q' (squeeze p repl b s) = true.
Proof.
  intros Hq Hrepl. revert b. induction s as [|c s IH]; intros b; simpl; [done|].
  intros [Hc Hs]%andb_true_iff. destruct (p c) eqn:Hp.
  - destruct b; [by apply IH|]. rewrite all_chars_app, Hrepl. by apply IH.
  - simpl. by rewrite (Hq _ Hc Hp), IH.
Qed.

Lemma lstrip_by_first p s c : Str.first (lstrip_by p s) = Some c -> p c = false.
Proof.
  induction s as [|x s IH]; simpl; [done|].
  destruct (p x) eqn:Hx; [done|]. simpl. by intros [= <-].
Qed.

Lemma rstrip_by_first p s :
  rstrip_by p s <> "" -> Str.first (rstrip_by p s) = Str.first s.
Proof.
  destruct s as [|x s]; simpl; [done|].
  destruct (rstrip_by p s); [|done]. by destruct (p x).
Qed.

Lemma rstrip_by_last p s c : Str.last (rstrip_by p s) = Some c -> p c = false.
Proof.
  induction s as [|x s IH]; simpl; [done|].
  destruct (rstrip_by p s) as [|y r] eqn:Hr.
  - destruct (p x) eqn:Hx; simpl; [done|]. by intros [= <-].
  - intros H. apply IH. exact H.
Qed.

Lemma strip_by_ends p s c :
  Str.first (rstrip_by p (lstrip_by p s)) = Some c
  \/ Str.last (rstrip_by p (lstrip_by p s)) = Some c ->
  p c = false.
Proof.
  intros [Hc|Hc]; [|by apply rstrip_by_last in Hc].
  apply (lstrip_by_first p s). rewrite <- (rstrip_by_first p); [done|].
  intros Hempty. by rewrite Hempty in Hc.
Qed.

(** The text between two strippings is a part of the whole. *)
Lemma contains_app_l needle s t :
  Str.contains needle s = true -> Str.contains needle (s +:+ t) = true.
Proof.
  assert (forall n a, String.prefix n a = true -> String.prefix n (a +:+ t) = true)
    as Hprefix.
  { induction n as [|x n IHn]; intros [|y a]; simpl; try done.
    - by destruct t.
    - destruct (ascii_dec x y); [|done]. apply IHn. }
  induction s as [|c s IH]; cbn [Str.contains].
  - rewrite orb_false_r. intros H. apply contains_prefix. by apply (Hprefix _ "").
  - rewrite append_cons. cbn [Str.contains].
    intros [H|H]%orb_true_iff.
    + apply (Hprefix _ (String c s)) in H. rewrite append_cons in H.
      by rewrite H.
    + by rewrite (IH H), orb_true_r.
Qed.

Lemma lstrip_by_contains needle p s :
  Str.contains needle (lstrip_by p s) = true -> Str.contains needle s = true.
Proof.
  induction s as [|c s IH]; [done|]. cbn [lstrip_by].
  destruct (p c); [|done]. intros H%IH. cbn [Str.contains].
  by rewrite H, orb_true_r.
Qed.

Lemma rstrip_by_prefix p s : exists rest, s = rstrip_by p s +:+ rest.
Proof.
  induction s as [|c s [rest IH]]; [by exists ""|]. cbn [rstrip_by].
  destruct (rstrip_by p s) as [|y r] eqn:Hr.
  - destruct (p c).
    + by exists (String c s).
    + exists rest. rewrite append_cons, append_nil_l. by rewrite IH at 1.
  - exists rest. rewrite append_cons. by rewrite IH at 1.
Qed.

Lemma rstrip_by_contains needle p s :
  Str.contains needle (rstrip_by p s) = true -> Str.contains needle s = true.
Proof.
  destruct (rstrip_by_prefix p s) as [rest Hs]. intros H.
  rewrite Hs. by apply contains_app_l.
Qed.

(** *** Hyphens after squeezing *)

Lemma squeeze_in_run_first s :
  Str.first (squeeze separator "-" true s) <> Some HYPHEN.
Proof.
  induction s as [|x s IH]; simpl; [done|].
  destruct (separator x) eqn:Hx; [done|]. simpl. intros [= ->].
  by vm_compute in Hx.
Qed.

Lemma prefix_cons a needle b s :
  String.prefix (String a needle) (String b s)
  = if ascii_dec a b then String.prefix needle s else false.
Proof. reflexivity. Qed.

Lemma prefix_two_hyphens s :
  String.prefix "--" s = true ->
  exists s', s = String HYPHEN s' /\ Str.first s' = Some HYPHEN.
Proof.
  destruct s as [|a [|b s]]; [done| |].
  - rewrite prefix_cons. by destruct (ascii_dec "-" a).
  - rewrite !prefix_cons.
    destruct (ascii_dec "-" a) as [<-|]; [|done].
    destruct (ascii_dec "-" b) as [<-|]; [|done].
    intros _. by eexists.
Qed.

Lemma squeeze_no_double_hyphen b s :
  Str.contains "--" (squeeze separator "-" b s) = false.
Proof.
  revert b. induction s as [|x s IH]; intros b; [done|]. cbn [squeeze].
  destruct (separator x) eqn:Hx.
  - destruct b; [by apply IH|].
    rewrite append_cons, append_nil_l. cbn [Str.contains].
    rewrite IH, orb_false_r.
    destruct (String.prefix "--" (String "-" (squeeze separator "-" true s)))
      eqn:Hp; [|done].
    apply prefix_two_hyphens in Hp as (s' & [= <-] & Hfirst).
    by apply squeeze_in_run_first in Hfirst.
  - cbn [Str.contains]. rewrite IH, orb_false_r.
    destruct (String.prefix "--" (String x (squeeze separator "-" false s)))
      eqn:Hp; [|done].
    apply prefix_two_hyphens in Hp as (s' & [= -> _] & _).
    by vm_compute in Hx.
Qed.

(** *** The word characters through the steps *)

Lemma only_chars_lower s :
  only_chars Chr.isword (Str.lower s) = Str.lower (only_chars Chr.isword s).
Proof.
  induction s as [|c s IH]; simpl; [done|]. rewrite isword_lower.
  destruct (Chr.isword c); simpl; by rewrite IH.
Qed.

Lemma only_chars_lstrip_by (p q : ascii -> bool) s :
  (forall c, p c = true -> q c = false) ->
  only_chars q (lstrip_by p s) = only_chars q s.
Proof.
  intros Hpq. induction s as [|c s IH]; simpl; [done|].
  destruct (p c) eqn:Hp; [|done]. by rewrite (Hpq _ Hp).
Qed.

Lemma only_chars_rstrip_by (p q : ascii -> bool) s :
  (forall c, p c = true -> q c = false) ->
  only_chars q (rstrip_by p s) = only_chars q s.
Proof.
  intros Hpq. induction s as [|c s IH]; simpl; [done|].
  destruct (rstrip_by p s) as [|y r].
  - rewrite <- IH. destruct (p c) eqn:Hp; [by rewrite (Hpq _ Hp)|done].
  - change (only_chars q (String c (String y r))) with
      (if q c then String c (only_chars q (String y r))
       else only_chars q (String y r)).
    by rewrite IH.
Qed.

Lemma only_chars_only_chars (p q : ascii -> bool) s :
  (forall c, q c = true -> p c = true) ->
  only_chars q (only_chars p s) = only_chars q s.
Proof.
  intros Hqp. induction s as [|c s IH]; simpl; [done|].
  destruct (p c) eqn:Hp; simpl; [by rewrite IH|].
  destruct (q c) eqn:Hq; [|done]. apply Hqp in Hq. congruence.
Qed.

Lemma only_chars_app q s t :
  only_chars q (s +:+ t) = only_chars q s +:+ only_chars q t.
Proof.
  induction s as [|c s IH]; [done|]. rewrite append_cons. simpl.
  destruct (q c); [|done]. by rewrite append_cons, IH.
Qed.

Lemma only_chars_squeeze (p q : ascii -> bool) repl b s :
  (forall c, p c = true -> q c = false) ->
  only_chars q repl = "" ->
  only_chars q (squeeze p repl b s) = only_chars q s.
Proof.
  intros Hpq Hrepl. revert b.
  induction s as [|c s IH]; intros b; simpl; [done|].
  destruct (p c) eqn:Hp.
  - rewrite (Hpq _ Hp). destruct b; [by apply IH|].
    by rewrite only_chars_app, Hrepl, append_nil_l, IH.
  - simpl. by rewrite IH.
Qed.

Lemma separator_not_word c : separator c = true -> Chr.isword c = false.
Proof.
  unfold separator. intros [->%hyphen_eqb|Hs]%orb_true_iff; [done|].
  destruct (Chr.isword c) eqn:Hw; [|done].
  apply word_not_space in Hw. congruence.
Qed.

Lemma space_not_word c : Chr.isspace c = true -> Chr.isword c = false.
Proof.
  intros Hs. destruct (Chr.isword c) eqn:Hw; [|done].
  apply word_not_space in Hw. congruence.
Qed.

Lemma hyphen_not_word c : Ascii.eqb c HYPHEN = true -> Chr.isword c = false.
Proof. by intros ->%hyphen_eqb. Qed.

(** *** Steps that change nothing *)

Lemma lower_fixed s :
  all_chars (fun c => Ascii.eqb (Chr.lower c) c) s = true -> Str.lower s = s.
Proof.
  induction s as [|c s IH]; simpl; [done|].
  intros [->%Ascii.eqb_eq Hs]%andb_true_iff. by rewrite IH.
Qed.

Lemma lstrip_by_fixed p s :
  (forall c, Str.first s = Some c -> p c = false) -> lstrip_by p s = s.
Proof. destruct s as [|c s]; simpl; [done|]. intros H. by rewrite (H c). Qed.

Lemma rstrip_by_fixed p s :
  (forall c, Str.last s = Some c -> p c = false) -> rstrip_by p s = s.
Proof.
  induction s as [|c s IH]; simpl; [done|]. intros H.
  destruct s as [|y s].
  - simpl. by rewrite (H c).
  - rewrite IH by exact H. reflexivity.
Qed.

Lemma only_chars_fixed p s : all_chars p s = true -> only_chars p s = s.
Proof.
  induction s as [|c s IH]; simpl; [done|].
  intros [-> Hs]%andb_true_iff. by rewrite IH.
Qed.

Lemma contains_tail_false needle c s :
  Str.contains needle (String c s) = false ->
  String.prefix needle (String c s) = false /\ Str.contains needle s = false.
Proof. cbn [Str.contains]. by intros ?%orb_false_iff. Qed.

Lemma squeeze_fixed b s :
  all_chars slug_char s = true ->
  Str.contains "--" s = false ->
  (b = true -> Str.first s <> Some HYPHEN) ->
  squeeze separator "-" b s = s.
Proof.
  revert b. induction s as [|x s IH]; intros b; [done|].
  intros [Hx Hs]%andb_true_iff [Hp Hc]%contains_tail_false Hb. cbn [squeeze].
  destruct (separator x) eqn:Hsep.
  - apply (slug_char_separator _ Hx) in Hsep as ->.
    destruct b; [by destruct Hb|].
    rewrite append_cons, append_nil_l. f_equal. apply IH; [done..|].
    intros _ Hfirst. destruct s as [|y s]; [done|].
    injection Hfirst as ->. rewrite !prefix_cons in Hp. unfold HYPHEN in Hp.
    destruct (ascii_dec "-" "-") as [_|Hne]; [|done]. by destruct s.
  - f_equal. by apply IH.
Qed.

(** ** What [_slugify] returns *)

Lemma slug_shape (text : string) :
  all_chars slug_char (_slugify text) = true
  /\ Str.first (_slugify text) <> Some HYPHEN
  /\ Str.last (_slugify text) <> Some HYPHEN
  /\ Str.contains "--" (_slugify text) = false.
Proof.
  rewrite slugify_steps.
  set (t2 := only_chars kept
               (rstrip_by Chr.isspace (lstrip_by Chr.isspace (Str.lower text)))).
  split; [|split; [|split]].
  - apply all_chars_rstrip_by, all_chars_lstrip_by.
    apply (all_chars_squeeze separator
             (fun c => Ascii.eqb (Chr.lower c) c && kept c)).
    + intros x [Hlow Hkept]%andb_true_iff Hsep.
      unfold kept in Hkept. unfold separator in Hsep.
      apply orb_false_iff in Hsep as [Hh Hs]. rewrite Hh, Hs, !orb_false_r in Hkept.
      unfold slug_char. by rewrite Hkept, Hlow.
    + reflexivity.
    + apply all_chars_only_chars, all_chars_rstrip_by, all_chars_lstrip_by.
      apply lower_all_fixed.
  - intros Hfirst. pose proof (strip_by_ends _ _ _ (or_introl Hfirst)) as H.
    by vm_compute in H.
  - intros Hlast. pose proof (strip_by_ends _ _ _ (or_intror Hlast)) as H.
    by vm_compute in H.
  - destruct (Str.contains "--" _) eqn:Hc; [|done].
    apply rstrip_by_contains, lstrip_by_contains in Hc.
    by rewrite squeeze_no_double_hyphen in Hc.
Qed.

Lemma slug_word_chars (text : string) :
  only_chars Chr.isword (_slugify text) = Str.lower (only_chars Chr.isword text).
Proof.
  rewrite slugify_steps.
  rewrite only_chars_rstrip_by by apply hyphen_not_word.
  rewrite only_chars_lstrip_by by apply hyphen_not_word.
  rewrite only_chars_squeeze by (apply separator_not_word || reflexivity).
  rewrite only_chars_only_chars by (intros c Hc; unfold kept; by rewrite Hc).
  rewrite only_chars_rstrip_by by apply space_not_word.
  rewrite only_chars_lstrip_by by apply space_not_word.
  apply only_chars_lower.
Qed.

(** X1. A slug is made of lower-case word characters and hyphens only
    (so it has no whitespace and no punctuation), it neither starts nor
    ends with a hyphen, and it has no two hyphens in a row. *)
Theorem slugify_shape (text : string) :
  all_chars slug_char (_slugify text) = true
  /\ Str.first (_slugify text) <> Some HYPHEN
  /\ Str.last (_slugify text) <> Some HYPHEN
  /\ Str.contains "--" (_slugify text) = false.
Proof. exact (slug_shape text). Qed.

(** X2. After the text is lowered, [_slugify] loses no word character
    and invents none: the word characters of the slug are those of
    [text.lower()], in the same order. *)
Theorem slugify_keeps_word_chars (text : string) :
  only_chars Chr.isword (_slugify text) = only_chars Chr.isword (Str.lower text).
Proof.
  rewrite slugify_steps.
  rewrite only_chars_rstrip_by by apply hyphen_not_word.
  rewrite only_chars_lstrip_by by apply hyphen_not_word.
  rewrite only_chars_squeeze by (apply separator_not_word || reflexivity).
  rewrite only_chars_only_chars by (intros c Hc; unfold kept; by rewrite Hc).
  rewrite only_chars_rstrip_by by apply space_not_word.
  by rewrite only_chars_lstrip_by by apply space_not_word.
Qed.

Lemma lower_empty s : Str.lower s = "" <-> s = "".
Proof. by destruct s. Qed.

Lemma hyphens_only_empty s :
  all_chars slug_char s = true ->
  only_chars Chr.isword s = "" ->
  Str.first s <> Some HYPHEN ->
  s = "".
Proof.
  destruct s as [|c s]; [done|]. simpl.
  intros [Hc _]%andb_true_iff Hw Hfirst.
  destruct (Chr.isword c) eqn:Hword; [done|].
  destruct (decide (c = HYPHEN)) as [->|Hne]; [done|].
  apply (slug_char_word _ Hc) in Hne. congruence.
Qed.

(** X3. The slug is empty exactly when the text has no word character:
    a name made of punctuation, hyphens and whitespace only has the
    empty slug, and every other name has a non-empty one. *)
Theorem slugify_empty_iff (text : string) :
  _slugify text = "" <-> only_chars Chr.isword text = "".
Proof.
  pose proof (slug_word_chars text) as Hw.
  destruct (slug_shape text) as (Hall & Hfirst & _ & _). split.
  - intros Hempty. rewrite Hempty in Hw. simpl in Hw. symmetry in Hw.
    by apply lower_empty.
  - intros Hnone. rewrite Hnone in Hw. by apply hyphens_only_empty.
Qed.

(** X4. [_slugify] is idempotent: a slug is its own slug. *)
Theorem slugify_idempotent (text : string) :
  _slugify (_slugify text) = _slugify text.
Proof.
  destruct (slug_shape text) as (Hall & Hfirst & Hlast & Hdouble).
  set (s := _slugify text) in *. rewrite (slugify_steps s).
  assert (forall c, Str.first s = Some c -> Chr.isspace c = false) as Hfs.
  { intros c Hc. pose proof (all_chars_first _ _ _ Hall Hc) as Hsc.
    destruct (decide (c = HYPHEN)) as [->|Hne]; [done|].
    by apply word_not_space, slug_char_word. }
  assert (forall c, Str.last s = Some c -> Chr.isspace c = false) as Hls.
  { intros c Hc. pose proof (all_chars_last _ _ _ Hall Hc) as Hsc.
    destruct (decide (c = HYPHEN)) as [->|Hne]; [done|].
    by apply word_not_space, slug_char_word. }
  rewrite (lower_fixed s).
  2:{ apply (all_chars_impl slug_char); [|done].
      intros x Hx. apply Ascii.eqb_eq. by apply slug_char_lower. }
  rewrite (lstrip_by_fixed Chr.isspace s) by done.
  rewrite (rstrip_by_fixed Chr.isspace s) by done.
  rewrite (only_chars_fixed kept s)
    by (apply (all_chars_impl slug_char); [apply slug_char_kept|done]).
  rewrite (squeeze_fixed false s) by done.
  rewrite lstrip_by_fixed.
  2:{ intros c Hc. destruct (Ascii.eqb_spec c HYPHEN) as [->|]; [done|done]. }
  apply rstrip_by_fixed.
  intros c Hc. by destruct (Ascii.eqb_spec c HYPHEN) as [->|].
Qed.

Example slugify_feature_name :
  _slugify "Foundry Tools Local Dev Experience" = "foundry-tools-local-dev-experience"
  /\ _slugify "  --Hello,  World!--  " = "hello-world"
  /\ _slugify "?!  -- !" = "".
Proof. by vm_compute. Qed.

(** ** What [_prompt_raw_notes] returns *)

Lemma no_blank_pair_cons x y rest :
  no_blank_pair (x :: y :: rest)
  = negb (String.eqb x "" && String.eqb y "") && no_blank_pair (y :: rest).
Proof. reflexivity. Qed.

Lemma no_blank_pair_tail x rest :
  no_blank_pair (x :: rest) = true -> no_blank_pair rest = true.
Proof.
  destruct rest as [|y rest]; [done|]. rewrite no_blank_pair_cons.
  by intros [_ ?]%andb_true_iff.
Qed.

Lemma blank_pair_inside lines rest :
  no_blank_pair (lines ++ "" :: "" :: rest) = false.
Proof.
  induction lines as [|x lines IH]; [done|].
  destruct lines as [|y lines]; simpl app in *.
  - rewrite no_blank_pair_cons. change (no_blank_pair ("" :: "" :: rest)) with false.
    by rewrite andb_false_r.
  - rewrite no_blank_pair_cons, IH. by rewrite andb_false_r.
Qed.

Lemma read_notes_cons line input lines :
  read_notes (line :: input) lines
  = if String.eqb line "" && bool_decide (lines <> [])
       && String.eqb (List.last lines "") ""
    then removelast lines
    else read_notes input (lines ++ [line]).
Proof. reflexivity. Qed.

(** The loop's test fails as long as no two empty lines meet. *)
Lemma stop_test_false lines line rest :
  no_blank_pair (lines ++ line :: rest) = true ->
  String.eqb line "" && bool_decide (lines <> [])
    && String.eqb (List.last lines "") "" = false.
Proof.
  intros Hno.
  destruct (String.eqb_spec line "") as [->|]; [|done].
  destruct (decide (lines = [])) as [->|Hne]; [done|].
  destruct (String.eqb_spec (List.last lines "") "") as [Hlast|];
    [|by rewrite andb_false_r].
  destruct (exists_last Hne) as (front & x & ->).
  rewrite last_last in Hlast. subst x.
  rewrite <- app_assoc in Hno. cbn [app] in Hno.
  by rewrite blank_pair_inside in Hno.
Qed.

(** At the end of the input everything read so far is kept. *)
Lemma read_notes_to_eof input lines :
  no_blank_pair (lines ++ input) = true ->
  read_notes input lines = lines ++ input.
Proof.
  revert lines. induction input as [|line input IH]; intros lines Hno.
  - by rewrite app_nil_r.
  - cbn [read_notes]. rewrite (stop_test_false _ _ _ Hno).
    rewrite IH; rewrite <- app_assoc; done.
Qed.

(** Two empty lines in a row end the loop; the first of them is dropped
    again and nothing after them is read. *)
Lemma read_notes_to_blank_pair input lines rest :
  no_blank_pair (lines ++ input) = true ->
  last (lines ++ input) <> Some "" ->
  read_notes (input ++ "" :: "" :: rest) lines = lines ++ input.
Proof.
  revert lines. induction input as [|line input IH]; intros lines Hno Hlast.
  - rewrite app_nil_r in *. cbn [app].
    rewrite (read_notes_cons "" ("" :: rest) lines).
    assert (String.eqb "" "" && bool_decide (lines <> [])
              && String.eqb (List.last lines "") "" = false) as ->.
    { destruct (decide (lines = [])) as [->|Hne]; [done|].
      destruct (exists_last Hne) as (front & x & ->).
      rewrite last_last. rewrite last_snoc in Hlast.
      destruct (String.eqb_spec x "") as [->|]; [done|].
      by rewrite andb_false_r. }
    rewrite (read_notes_cons "" rest (lines ++ [""])).
    rewrite last_last, bool_decide_eq_true_2 by (by destruct lines).
    change (String.eqb "" "") with true. cbn [andb]. apply removelast_last.
  - cbn [app read_notes]. rewrite (stop_test_false _ _ _ Hno).
    rewrite IH; rewrite <- app_assoc; done.
Qed.

(** X5. Typing the notes and then pressing Enter twice returns the notes
    as typed, joined by newlines, whatever follows in the input: single
    empty lines inside the notes are kept, provided the notes have no two
    empty lines in a row and do not end with an empty line. *)
Theorem prompt_raw_notes_double_enter (notes rest : list string) :
  no_blank_pair notes = true ->
  last notes <> Some "" ->
  _prompt_raw_notes (notes ++ "" :: "" :: rest) = String.concat (String LF "") notes.
Proof.
  intros Hno Hlast. unfold _prompt_raw_notes.
  by rewrite (read_notes_to_blank_pair notes [] rest).
Qed.

Lemma prompt_raw_notes_double_enter_witness :
  _prompt_raw_notes (["Goal: faster builds"; ""; "- cache the index"]
                     ++ "" :: "" :: ["never read"])
  = String.concat (String LF "") ["Goal: faster builds"; ""; "- cache the index"].
Proof.
  apply (prompt_raw_notes_double_enter
           ["Goal: faster builds"; ""; "- cache the index"] ["never read"]).
  - reflexivity.
  - discriminate.
Defined.

(** X6. When the input ends before two empty lines in a row were typed,
    every line typed is returned, a last empty line included. *)
Theorem prompt_raw_notes_eof (typed : list string) :
  no_blank_pair typed = true ->
  _prompt_raw_notes typed = String.concat (String LF "") typed.
Proof.
  intros Hno. unfold _prompt_raw_notes. by rewrite read_notes_to_eof.
Qed.

Lemma prompt_raw_notes_eof_witness :
  _prompt_raw_notes ["first"; ""; "second"; ""]
  = String.concat (String LF "") ["first"; ""; "second"; ""].
Proof. apply (prompt_raw_notes_eof ["first"; ""; "second"; ""]). reflexivity. Defined.

Example enter_twice_at_once : forall rest, _prompt_raw_notes ("" :: "" :: rest) = "".
Proof. reflexivity. Qed.

(** ** What [_get_existing_features] returns *)



Example existing_features_sample :
  _get_existing_features
    (Directory [ {| entry_name := "002-search"; entry_is_dir := true |};
                 {| entry_name := ".git"; entry_is_dir := true |};
                 {| entry_name := "README.md"; entry_is_dir := false |};
                 {| entry_name := "001-login"; entry_is_dir := true |} ])
  = Returned ["001-login"; "002-search"].
Proof. by vm_compute. Qed.

(** * More on the Copilot invoker *)

(** ** The matcher finds only what the pattern describes *)

Lemma append_assoc (s t u : string) : (s +:+ t) +:+ u = s +:+ (t +:+ u).
Proof. induction s as [|c s IH]; [done|]. rewrite !append_cons. by rewrite IH. Qed.

Lemma append_nil_r (s : string) : s +:+ "" = s.
Proof. induction s as [|c s IH]; [done|]. rewrite append_cons. by rewrite IH. Qed.

Lemma length_append (s t : string) :
  String.length (s +:+ t) = String.length s + String.length t.
Proof. induction s as [|c s IH]; [done|]. rewrite append_cons. simpl. by rewrite IH. Qed.

Lemma substring_front (s t : string) :
  String.substring 0 (String.length (s +:+ t) - String.length t) (s +:+ t) = s.
Proof.
  rewrite length_append.
  replace (String.length s + String.length t - String.length t)
    with (String.length s) by lia.
  induction s as [|c s IH]; simpl.
  - by destruct t.
  - by rewrite IH.
Qed.

Lemma eat_text_split ic lit s rest :
  Re.eat_text ic lit s = Some rest ->
  exists s1, s = s1 +:+ rest /\ Re.eat_text ic lit s1 = Some "".
Proof.
  revert s. induction lit as [|c lit IH]; intros s; cbn [Re.eat_text].
  - intros [= ->]. by exists "".
  - destruct s as [|x s]; [done|].
    destruct (Re.item_matches ic (Re.Lit c) x) eqn:Hx; [|done].
    intros (s1 & -> & Hs1)%IH. exists (String x s1). split; [reflexivity|].
    cbn [Re.eat_text]. by rewrite Hx.
Qed.

Lemma star_split {A} ic c s (k : string -> option A) a :
  Re.star ic c s k = Some a ->
  exists s1 s2, s = s1 +:+ s2
    /\ all_chars (Re.class_matches ic c) s1 = true /\ k s2 = Some a.
Proof.
  induction s as [|x s IH]; cbn [Re.star].
  - intros Hk. by exists "", "".
  - destruct (Re.class_matches ic c x) eqn:Hx.
    + destruct (Re.star ic c s k) as [a'|] eqn:Hstar; cbn [Re.or_else].
      * intros [= ->]. destruct (IH eq_refl) as (s1 & s2 & -> & Hall & Hk).
        exists (String x s1), s2. split; [done|]. split; [|done].
        simpl. by rewrite Hx.
      * intros Hk. by exists "", (String x s).
    + intros Hk. by exists "", (String x s).
Qed.

(** Whenever the matcher succeeds, the input splits into a part the
    pattern spans and the rest, which the continuation accepted. *)
Lemma exec_sound {A} ic r : forall s g (k : string -> option string -> option A) a,
  Re.exec ic r s g k = Some a ->
  exists s1 s2 g1, s = s1 +:+ s2 /\ spans ic r s1 g g1 /\ k s2 g1 = Some a.
Proof.
  induction r as [c|lit|r1 IH1 r2 IH2|r1 IH1 r2 IH2|c|c|r IH];
    intros s g k a; cbn [Re.exec].
  - destruct s as [|x s]; [done|].
    destruct (Re.class_matches ic c x) eqn:Hx; [|done].
    intros Hk. exists (String x ""), s, g. split; [done|]. split; [|done].
    by constructor.
  - destruct (Re.eat_text ic lit s) as [rest|] eqn:Heat; [|done].
    intros Hk. apply eat_text_split in Heat as (s1 & -> & Hs1).
    exists s1, rest, g. split; [done|]. split; [|done]. by constructor.
  - intros (s1 & s2 & g1 & -> & H1 & Hk)%IH1.
    apply IH2 in Hk as (s3 & s4 & g2 & -> & H2 & Hk).
    exists (s1 +:+ s3), s4, g2. split; [by rewrite append_assoc|].
    split; [|done]. by econstructor.
  - destruct (Re.exec ic r1 s g k) as [a'|] eqn:H1; cbn [Re.or_else].
    + intros [= ->]. apply IH1 in H1 as (s1 & s2 & g1 & -> & H1 & Hk).
      exists s1, s2, g1. split; [done|]. split; [|done]. by apply spans_alt_l.
    + intros (s1 & s2 & g1 & -> & H2 & Hk)%IH2.
      exists s1, s2, g1. split; [done|]. split; [|done]. by apply spans_alt_r.
  - unfold Re.opt. destruct s as [|x s].
    + intros Hk. exists "", "", g. split; [done|]. split; [|done]. constructor.
    + destruct (Re.class_matches ic c x) eqn:Hx.
      * destruct (k s g) as [a'|] eqn:Hfirst; cbn [Re.or_else].
        -- intros [= ->]. exists (String x ""), s, g. split; [done|].
           split; [|done]. by constructor.
        -- intros Hk. exists "", (String x s), g. split; [done|].
           split; [|done]. constructor.
      * intros Hk. exists "", (String x s), g. split; [done|].
        split; [|done]. constructor.
  - unfold Re.plus. destruct s as [|x s]; [done|].
    destruct (Re.class_matches ic c x) eqn:Hx; [|done].
    intros (s1 & s2 & -> & Hall & Hk)%star_split.
    exists (String x s1), s2, g. split; [done|]. split; [|done].
    constructor; [done|]. simpl. by rewrite Hx.
  - intros (s1 & s2 & g1 & -> & H1 & Hk)%IH.
    rewrite substring_front in Hk.
    exists s1, s2, (Some s1). split; [done|]. split; [|done].
    by econstructor.
Qed.

(** Every entry of [findall] is group 1 of a match that starts somewhere
    in the text. *)
Lemma findall_from_elem ic r s skip x :
  x ∈ Re.findall_from ic r s skip ->
  exists before t g rest,
    s = before +:+ t /\ Re.match_here ic r t = Some (g, rest) /\ x = default "" g.
Proof.
  revert skip. induction s as [|c s IH]; intros skip; cbn [Re.findall_from].
  - by intros ?%not_elem_of_nil.
  - assert (forall n, x ∈ Re.findall_from ic r s n ->
              exists before t g rest,
                String c s = before +:+ t
                /\ Re.match_here ic r t = Some (g, rest) /\ x = default "" g)
      as Hlater.
    { intros n (before & t & g & rest & -> & Hm & Hx)%IH.
      by exists (String c before), t, g, rest. }
    destruct skip as [|skip]; [|by apply Hlater].
    destruct (Re.match_here ic r (String c s)) as [[g rest]|] eqn:Hm;
      [|by apply Hlater].
    intros [->|Hin]%elem_of_cons; [|by apply Hlater in Hin].
    by exists "", (String c s), g, rest.
Qed.

Lemma match_here_sound ic r t g rest :
  Re.match_here ic r t = Some (g, rest) ->
  exists s1, t = s1 +:+ rest /\ spans ic r s1 None g.
Proof.
  unfold Re.match_here.
  intros (s1 & s2 & g1 & -> & Hspans & [= <- <-])%exec_sound. by exists s1.
Qed.

(** ** What the two patterns of the extractor span *)

Lemma stem_class_spec x :
  Re.class_matches true (Re.NoneOf [Re.Space; Re.Lit SQUOTE; Re.Lit DQUOTE]) x
  = stem_char x.
Proof. by destruct x as [[] [] [] [] [] [] [] []]. Qed.

Lemma dot_class_spec x :
  Re.class_matches true (Re.One (Re.Lit "."%char)) x = true -> x = "."%char.
Proof. destruct x as [[] [] [] [] [] [] [] []]; vm_compute; congruence. Qed.

Lemma quote_class_spec x :
  Re.class_matches true quote x = true -> x = SQUOTE \/ x = DQUOTE.
Proof.
  destruct x as [[] [] [] [] [] [] [] []]; vm_compute; try congruence; auto.
Qed.

Lemma word_stem_char c : Chr.isword c = true -> stem_char c = true.
Proof. destruct c as [[] [] [] [] [] [] [] []]; vm_compute; congruence. Qed.

Lemma all_chars_ext (p q : ascii -> bool) s :
  (forall x, p x = q x) -> all_chars p s = all_chars q s.
Proof. intros Hpq. induction s as [|c s IH]; simpl; [done|]. by rewrite Hpq, IH. Qed.

Ltac invert_spans :=
  repeat match goal with
    | H : spans _ (Re.Seq _ _) _ _ _ |- _ => inversion H; subst; clear H
    | H : spans _ (Re.Group _) _ _ _ |- _ => inversion H; subst; clear H
    | H : spans _ (Re.Plus _) _ _ _ |- _ => inversion H; subst; clear H
    | H : spans _ (Re.Chars _) _ _ _ |- _ => inversion H; subst; clear H
    | H : spans _ (Re.Text _) _ _ _ |- _ => inversion H; subst; clear H
    end.

Lemma quote_spans s g g1 :
  spans true (Re.Opt quote) s g g1 ->
  g1 = g /\ (s = "" \/ s = String SQUOTE "" \/ s = String DQUOTE "").
Proof.
  inversion 1 as [| | | | |? ?|? x ? Hx|? ? ? ? ?|]; subst; [by auto|].
  split; [done|]. right. by destruct (quote_class_spec _ Hx) as [->| ->]; auto.
Qed.

(** The tail of both patterns spans an optional quote, a path and an
    optional quote, and sets group 1 to the path. *)
Lemma path_token_spans s g g1 :
  spans true path_token s g g1 ->
  exists q1 stem ext q2,
    s = q1 +:+ (stem +:+ "." +:+ ext) +:+ q2
    /\ g1 = Some (stem +:+ "." +:+ ext)
    /\ (q1 = "" \/ q1 = String SQUOTE "" \/ q1 = String DQUOTE "")
    /\ stem <> "" /\ all_chars stem_char stem = true
    /\ ext <> "" /\ all_chars Chr.isword ext = true.
Proof.
  unfold path_token. intros H. invert_spans.
  repeat match goal with
    | H : spans _ (Re.Opt quote) _ _ _ |- _ =>
        apply quote_spans in H as [? ?]
    end; subst.
  match goal with H : Re.class_matches _ (Re.One (Re.Lit _)) _ = true |- _ =>
    apply dot_class_spec in H as -> end.
  match goal with H : all_chars _ ?stem = true, H' : all_chars _ ?ext = true
                  |- context [?stem +:+ String "." "" +:+ ?ext] =>
    rewrite (all_chars_ext _ stem_char) in H by apply stem_class_spec;
    exists s1, stem, ext, s3
  end.
  repeat split; try done.
Qed.

Lemma verb_text_spans lit s g g1 :
  spans true (Re.Text lit) s g g1 -> g1 = g /\ reads_as lit s.
Proof. intros H. by inversion H; subst. Qed.

(** Either pattern spans a verb, whitespace and the tail. *)
Lemma pattern_spans pattern s g :
  pattern ∈ patterns ->
  spans true pattern s None g ->
  exists verb gap q1 stem ext q2,
    s = verb +:+ gap +:+ q1 +:+ (stem +:+ "." +:+ ext) +:+ q2
    /\ g = Some (stem +:+ "." +:+ ext)
    /\ (exists word, word ∈ verbs /\ reads_as word verb)
    /\ gap <> "" /\ all_chars Chr.isspace gap = true
    /\ (q1 = "" \/ q1 = String SQUOTE "" \/ q1 = String DQUOTE "")
    /\ stem <> "" /\ all_chars stem_char stem = true
    /\ ext <> "" /\ all_chars Chr.isword ext = true.
Proof.
  intros Hp H.
  assert (exists verb gap tail g0,
            s = verb +:+ gap +:+ tail
            /\ (exists word, word ∈ verbs /\ reads_as word verb)
            /\ gap <> "" /\ all_chars Chr.isspace gap = true
            /\ g0 = None /\ spans true path_token tail g0 g)
    as (verb & gap & tail & g0 & -> & Hverb & Hgap & Hspace & -> & Htail).
  { unfold patterns in Hp.
    repeat (apply elem_of_cons in Hp as [->|Hp]);
      [| |by apply not_elem_of_nil in Hp];
      unfold pattern_changed, pattern_writing in H;
      inversion H as [| |? ? verb rest ? g0 ? Hv Hrest| | | | | |]; subst; clear H;
      inversion Hrest as [| |? ? gap tail ? g1 ? Hg Ht| | | | | |]; subst; clear Hrest;
      inversion Hg; subst; clear Hg;
      exists verb, gap, tail, g1;
      repeat match goal with
        | H : spans _ (Re.Alt _ _) _ _ _ |- _ => inversion H; subst; clear H
        end;
      match goal with
      | H : spans _ (Re.Text ?word) _ _ _ |- _ =>
          apply verb_text_spans in H as [-> Hword];
          (repeat split; try done); exists word;
          (split; [unfold verbs; set_solver|done])
      end. }
  apply path_token_spans in Htail
    as (q1 & stem & ext & q2 & -> & -> & Hq1 & Hstem & Hsc & Hext & Hwc).
  by exists verb, gap, q1, stem, ext, q2.
Qed.

Lemma prefix_refl s t : String.prefix s (s +:+ t) = true.
Proof.
  induction s as [|c s IH]; [by destruct t|].
  rewrite append_cons, prefix_cons. by destruct (ascii_dec c c).
Qed.

Lemma contains_app_r needle s t :
  Str.contains needle t = true -> Str.contains needle (s +:+ t) = true.
Proof.
  intros H. induction s as [|c s IH]; [done|].
  rewrite append_cons. cbn [Str.contains]. by rewrite IH, orb_true_r.
Qed.

Lemma contains_middle needle s t : Str.contains needle (s +:+ needle +:+ t) = true.
Proof. apply contains_app_r, contains_prefix, prefix_refl. Qed.

(** Where an extracted path comes from. *)
Lemma extracted_path_origin text path :
  path ∈ _extract_files_from_text text ->
  exists before verb gap q1 stem ext q2 after,
    text = before +:+ verb +:+ gap +:+ q1 +:+ path +:+ q2 +:+ after
    /\ path = stem +:+ "." +:+ ext
    /\ (exists word, word ∈ verbs /\ reads_as word verb)
    /\ gap <> "" /\ all_chars Chr.isspace gap = true
    /\ (q1 = "" \/ q1 = String SQUOTE "" \/ q1 = String DQUOTE "")
    /\ stem <> "" /\ all_chars stem_char stem = true
    /\ ext <> "" /\ all_chars Chr.isword ext = true.
Proof.
  intros Hin.
  assert (exists pattern, pattern ∈ patterns
                          /\ path ∈ Re.findall pattern text true)
    as (pattern & Hp & Hfound).
  { apply extracted_files_spec in Hin as [Hin|Hin];
      eexists; (split; [|exact Hin]); unfold patterns; set_solver. }
  apply findall_from_elem in Hfound as (before & t & g & after & -> & Hm & ->).
  apply match_here_sound in Hm as (s1 & -> & Hspans).
  apply (pattern_spans _ _ _ Hp) in Hspans
    as (verb & gap & q1 & stem & ext & q2 & -> & -> & Hrest).
  exists before, verb, gap, q1, stem, ext, q2, after.
  split; [|by split].
  simpl. by rewrite !append_assoc.
Qed.

(** X8. Every path the extractor returns is a stem, a dot and an
    extension: both are non-empty, the extension is made of word
    characters, and no whitespace and no quote occurs anywhere in the
    path. *)
Theorem extracted_path_shape (text path : string) :
  path ∈ _extract_files_from_text text ->
  exists stem ext,
    path = stem +:+ "." +:+ ext
    /\ stem <> "" /\ ext <> ""
    /\ all_chars Chr.isword ext = true
    /\ all_chars stem_char path = true.
Proof.
  intros (_ & _ & _ & _ & stem & ext & _ & _ & _ & -> & _ & _ & _ & _
          & Hstem & Hsc & Hext & Hwc)%extracted_path_origin.
  exists stem, ext. repeat split; try done.
  rewrite !all_chars_app, Hsc. simpl.
  by rewrite (all_chars_impl _ _ _ word_stem_char Hwc).
Qed.

Lemma extracted_path_shape_witness :
  exists stem ext,
    "src/app.py" = stem +:+ "." +:+ ext
    /\ stem <> "" /\ ext <> ""
    /\ all_chars Chr.isword ext = true
    /\ all_chars stem_char "src/app.py" = true.
Proof.
  apply (extracted_path_shape "Created 'src/app.py' and more" "src/app.py").
  apply list_elem_of_In. vm_compute. by left.
Defined.

(** X9. Every path the extractor returns is a part of the text, and
    stands there right after a run of characters that [re.IGNORECASE]
    reads as one of the seven verbs, at least one whitespace character
    and at most one quote character. *)
Theorem extracted_path_follows_verb (text path : string) :
  path ∈ _extract_files_from_text text ->
  Str.contains path text = true
  /\ exists before verb gap q after,
       text = before +:+ verb +:+ gap +:+ q +:+ path +:+ after
       /\ (exists word, word ∈ verbs /\ reads_as word verb)
       /\ gap <> "" /\ all_chars Chr.isspace gap = true
       /\ (q = "" \/ q = String SQUOTE "" \/ q = String DQUOTE "").
Proof.
  intros (before & verb & gap & q1 & stem & ext & q2 & after & -> & _
          & Hverb & Hgap & Hspace & Hq & _)%extracted_path_origin.
  split.
  - replace (before +:+ verb +:+ gap +:+ q1 +:+ path +:+ q2 +:+ after)
      with ((before +:+ verb +:+ gap +:+ q1) +:+ path +:+ (q2 +:+ after))
      by (by rewrite !append_assoc).
    apply contains_middle.
  - by exists before, verb, gap, q1, (q2 +:+ after).
Qed.

Lemma extracted_path_follows_verb_witness :
  Str.contains "src/app.py" "I have WROTE  'src/app.py' now" = true
  /\ exists before verb gap q after,
       "I have WROTE  'src/app.py' now"
         = before +:+ verb +:+ gap +:+ q +:+ "src/app.py" +:+ after
       /\ (exists word, word ∈ verbs /\ reads_as word verb)
       /\ gap <> "" /\ all_chars Chr.isspace gap = true
       /\ (q = "" \/ q = String SQUOTE "" \/ q = String DQUOTE "").
Proof.
  apply (extracted_path_follows_verb "I have WROTE  'src/app.py' now" "src/app.py").
  apply list_elem_of_In. vm_compute. by left.
Defined.

(** ** Lines and the words looked for in them *)

Lemma lower_is_newline c : Ascii.eqb (Chr.lower c) LF = Ascii.eqb c LF.
Proof. by destruct c as [[] [] [] [] [] [] [] []]. Qed.

Lemma isspace_lower c : Chr.isspace (Chr.lower c) = Chr.isspace c.
Proof. by destruct c as [[] [] [] [] [] [] [] []]. Qed.

Lemma split_nonempty sep s : Str.split sep s <> [].
Proof.
  induction s as [|c s IH]; simpl; [done|].
  destruct (Ascii.eqb c sep); [done|]. by destruct (Str.split sep s).
Qed.

Lemma split_lower s : Str.split LF (Str.lower s) = map Str.lower (Str.split LF s).
Proof.
  induction s as [|c s IH]; simpl; [done|].
  rewrite lower_is_newline, IH.
  destruct (Ascii.eqb c LF); [done|]. by destruct (Str.split LF s).
Qed.

Lemma prefix_nil s : String.prefix "" s = true.
Proof. by destruct s. Qed.

(** A word without a newline that starts a text starts its first line. *)
Lemma prefix_first_line needle s :
  all_chars (fun c => negb (Ascii.eqb c LF)) needle = true ->
  String.prefix needle s = true ->
  String.prefix needle (hd "" (Str.split LF s)) = true.
Proof.
  revert needle. induction s as [|c s IH]; intros [|a needle]; try done.
  - intros _ _. apply prefix_nil.
  - simpl all_chars. intros [Ha Hn]%andb_true_iff. rewrite prefix_cons.
    destruct (ascii_dec a c) as [<-|]; [|done]. intros Hp.
    cbn [Str.split]. apply negb_true_iff in Ha. rewrite Ha.
    specialize (IH _ Hn Hp). pose proof (split_nonempty LF s) as Hne.
    destruct (Str.split LF s) as [|field fields]; [done|].
    simpl hd in *. rewrite prefix_cons. by destruct (ascii_dec a a).
Qed.

(** A word without a newline that occurs in a text occurs in one of
    its lines. *)
Lemma contains_in_line needle s :
  all_chars (fun c => negb (Ascii.eqb c LF)) needle = true ->
  Str.contains needle s = true ->
  exists line, line ∈ Str.split LF s /\ Str.contains needle line = true.
Proof.
  intros Hn. induction s as [|c s IH].
  - intros H. exists "". split; [by left|done].
  - cbn [Str.contains]. intros [Hp|Hc]%orb_true_iff.
    + apply (prefix_first_line _ _ Hn) in Hp.
      pose proof (split_nonempty LF (String c s)) as Hne.
      destruct (Str.split LF (String c s)) as [|line lines]; [done|].
      exists line. split; [by left|]. by apply contains_prefix.
    + destruct (IH Hc) as (line & Hin & Hline). cbn [Str.split].
      destruct (Ascii.eqb c LF).
      * exists line. split; [by right|done].
      * pose proof (split_nonempty LF s) as Hne.
        destruct (Str.split LF s) as [|field fields]; [done|].
        apply elem_of_cons in Hin as [->|Hin].
        -- exists (String c field). split; [by left|].
           cbn [Str.contains]. by rewrite Hline, orb_true_r.
        -- exists line. split; [by right|done].
Qed.

(** If the whole of stdout looks like an error, one of its lines does. *)
Lemma error_like_line out :
  error_like out = true ->
  exists line, line ∈ Str.split LF out /\ error_like line = true.
Proof.
  unfold error_like at 1. intros H.
  assert (exists needle,
            all_chars (fun c => negb (Ascii.eqb c LF)) needle = true
            /\ Str.contains needle (Str.lower out) = true
            /\ forall line, Str.contains needle (Str.lower line) = true ->
                            error_like line = true)
    as (needle & Hn & Hc & Hlike).
  { apply orb_true_iff in H as [H|H]; eexists; (split; [|split; [exact H|]]);
      try reflexivity; intros line Hl; unfold error_like; rewrite Hl;
      by rewrite ?orb_true_r. }
  apply (contains_in_line _ _ Hn) in Hc as (lowered & Hin & Hc).
  rewrite split_lower, list_elem_of_In, in_map_iff in Hin.
  destruct Hin as (line & <- & Hin). exists line.
  split; [by apply list_elem_of_In|by apply Hlike].
Qed.

(** A line that looks like an error is not blank. *)
Lemma contains_not_all needle (p : ascii -> bool) s :
  (exists a rest, needle = String a rest /\ p a = false) ->
  Str.contains needle s = true -> all_chars p s = false.
Proof.
  intros (a & rest & -> & Ha). induction s as [|c s IH]; [done|].
  cbn [Str.contains]. rewrite prefix_cons. simpl all_chars.
  intros [Hp|Hc]%orb_true_iff.
  - destruct (ascii_dec a c) as [<-|]; [|done]. by rewrite Ha.
  - by rewrite (IH Hc), andb_false_r.
Qed.

Lemma rstrip_by_empty p s : rstrip_by p s = "" -> all_chars p s = true.
Proof.
  induction s as [|c s IH]; simpl; [done|].
  destruct (rstrip_by p s) as [|y r]; [|done].
  destruct (p c); [|done]. intros _. by apply IH.
Qed.

Lemma lstrip_by_all p s : all_chars p (lstrip_by p s) = true -> all_chars p s = true.
Proof.
  induction s as [|c s IH]; simpl; [done|].
  destruct (p c) eqn:Hc; simpl; [done|]. by rewrite Hc.
Qed.

Lemma strip_empty s : Str.strip s = "" -> all_chars Chr.isspace s = true.
Proof.
  unfold Str.strip. rewrite str_rstrip_by, str_lstrip_by.
  intros H%rstrip_by_empty. by apply lstrip_by_all.
Qed.

Lemma all_chars_lower_space s :
  all_chars Chr.isspace (Str.lower s) = all_chars Chr.isspace s.
Proof. induction s as [|c s IH]; simpl; [done|]. by rewrite isspace_lower, IH. Qed.

Lemma error_like_not_blank line : error_like line = true -> Str.strip line <> "".
Proof.
  intros Hlike Hblank%strip_empty. rewrite <- all_chars_lower_space in Hblank.
  unfold error_like in Hlike.
  apply orb_true_iff in Hlike as [H|H];
    apply (contains_not_all _ Chr.isspace) in H; try congruence;
    by eexists _, _.
Qed.

(** ** More on [parse_output] *)

(** X10. After a non-zero exit code, a stderr that is blank (empty or
    whitespace only) is treated as no stderr at all: the inherited helpers
    are not consulted, so a result is returned whatever they would do,
    it has no warning and at most three errors, none of them the empty
    string, and it has no error at all exactly when stdout has neither
    error nor failed in it. *)
Theorem blank_stderr_failure
    (payload : Type) (ee ew : option payload -> string -> outcome (list string))
    (out err : string) (ec : Z) (d : float) :
  ec <> 0%Z ->
  Str.strip err = "" ->
  exists r, parse_output payload ee ew out err ec d = Returned r
    /\ success r = false
    /\ warnings r = []
    /\ length (errors r) <= 3
    /\ (forall e, e ∈ errors r -> e <> "")
    /\ (errors r = [] <-> error_like out = false).
Proof.
  intros Hec%Z.eqb_neq Hblank. eexists. split.
  { unfold parse_output. rewrite check_stderr_blank by done.
    simpl. reflexivity. }
  simpl. rewrite Hec. split; [done|]. split; [done|].
  split; [apply check_stdout_fallback_length|]. split.
  - intros e (line & _ & Hlike & ->)%check_stdout_fallback_elem.
    by apply error_like_not_blank.
  - rewrite check_stdout_fallback. destruct (error_like out) eqn:Hout; [|done].
    split; [|done]. intros Hnone.
    destruct (error_like_line _ Hout) as (line & Hin & Hlike).
    assert (In line (List.filter error_like (Str.split LF out))) as Hfiltered.
    { apply filter_In. by rewrite <- list_elem_of_In. }
    destruct (List.filter error_like (Str.split LF out)); [done|].
    discriminate.
Qed.

Lemma blank_stderr_failure_witness :
  exists r, parse_output Empty_set always_raises always_raises
              (two_lines "step 1 ok" "  Build FAILED  ")
              (String LF "  ") 137 0%float = Returned r
    /\ success r = false
    /\ warnings r = []
    /\ length (errors r) <= 3
    /\ (forall e, e ∈ errors r -> e <> "")
    /\ (errors r = [] <->
        error_like (two_lines "step 1 ok" "  Build FAILED  ") = false).
Proof.
  apply (blank_stderr_failure Empty_set always_raises always_raises).
  - lia.
  - reflexivity.
Defined.

(** X11. An exception leaves [parse_output] only when stderr is not
    blank, and it is the one an inherited helper raised on stderr: the
    error helper's after a non-zero exit code, or else the warning
    helper's. *)
Theorem parse_output_exception_origin
    (payload : Type) (ee ew : option payload -> string -> outcome (list string))
    (out err : string) (ec : Z) (d : float) (e : exn) :
  parse_output payload ee ew out err ec d = Raised e ->
  Str.strip err <> ""
  /\ ((ec <> 0%Z /\ ee None err = Raised e)
      \/ ((ec = 0%Z \/ exists es, ee None err = Returned es)
          /\ ew None err = Raised e)).
Proof.
  unfold parse_output, check_stderr.
  destruct (Str.truthy (Str.strip err)) eqn:Hfull; simpl; [|discriminate].
  apply truthy_true in Hfull. intros H. split; [done|]. revert H.
  destruct (ec =? 0)%Z eqn:Hec; simpl.
  - apply Z.eqb_eq in Hec.
    destruct (ew None err) as [ws|e2]; simpl; [discriminate|].
    intros [= ->]. right. by split; [left|].
  - apply Z.eqb_neq in Hec. destruct (ee None err) as [es|e1]; simpl.
    + destruct (ew None err) as [ws|e2]; simpl; [discriminate|].
      intros [= ->]. right. split; [right; by exists es|done].
    + intros [= ->]. by left.
Qed.

Lemma parse_output_exception_origin_witness :
  Str.strip "Traceback: oops" <> ""
  /\ ((1 <> 0 /\ always_raises None "Traceback: oops"
                 = Raised (Exception "ValueError" "unexpected output"))%Z
      \/ ((1 = 0 \/ exists es, always_raises None "Traceback: oops" = Returned es)%Z
          /\ report_nothing None "Traceback: oops"
             = Raised (Exception "ValueError" "unexpected output"))).
Proof.
  apply (parse_output_exception_origin Empty_set always_raises report_nothing
           "" "Traceback: oops" 1 0%float).
  reflexivity.
Defined.

(** X12. With exit code zero the inherited error helper is never
    consulted: [parse_output] has the same outcome for any two error
    helpers, even for one that raises. *)
Theorem zero_exit_skips_error_helper
    (payload : Type) (ee ee' ew : option payload -> string -> outcome (list string))
    (out err : string) (d : float) :
  parse_output payload ee ew out err 0 d = parse_output payload ee' ew out err 0 d.
Proof.
  unfold parse_output. change (0 =? 0)%Z with true.
  by rewrite !check_stderr_success.
Qed.

(** ** Every input of [_prompt_raw_notes] *)

Lemma no_blank_pair_snoc notes :
  no_blank_pair (notes ++ [""]) = true ->
  no_blank_pair notes = true /\ last notes <> Some "".
Proof.
  induction notes as [|x notes IH]; [done|].
  destruct notes as [|y notes].
  - simpl. intros H. split; [done|]. intros [= ->]. by simpl in H.
  - change ((x :: y :: notes) ++ [""]) with (x :: y :: notes ++ [""]).
    rewrite !no_blank_pair_cons.
    intros [Hxy Hrest]%andb_true_iff. destruct (IH Hrest) as [Hno Hlast].
    by rewrite Hxy, Hno.
Qed.

(** Either no two empty lines meet in the input, or there is a first
    place where they do. *)
Lemma first_blank_pair input :
  no_blank_pair input = true
  \/ exists notes rest,
       input = notes ++ "" :: "" :: rest /\ no_blank_pair (notes ++ [""]) = true.
Proof.
  induction input as [|x input IH]; [by left|].
  destruct IH as [Hno|(notes & rest & -> & Hno)].
  - destruct input as [|y input]; [by left|].
    destruct (String.eqb x "" && String.eqb y "") eqn:Hxy.
    + apply andb_true_iff in Hxy as [->%String.eqb_eq ->%String.eqb_eq].
      right. by exists [], input.
    + left. by rewrite no_blank_pair_cons, Hxy, Hno.
  - destruct notes as [|y notes].
    + destruct (String.eqb_spec x "") as [->|Hx].
      * right. by exists [], ("" :: rest).
      * right. exists [x], rest. split; [done|].
        simpl. apply String.eqb_neq in Hx. by rewrite Hx.
    + destruct (String.eqb x "" && String.eqb y "") eqn:Hxy.
      * apply andb_true_iff in Hxy as [->%String.eqb_eq ->%String.eqb_eq].
        right. by exists [], (notes ++ "" :: "" :: rest).
      * right. exists (x :: y :: notes), rest. split; [done|].
        change ((x :: y :: notes) ++ [""]) with (x :: (y :: notes) ++ [""]).
        change ((y :: notes) ++ [""]) with (y :: notes ++ [""]) in *.
        by rewrite no_blank_pair_cons, Hxy, Hno.
Qed.

(** X13. Whatever is typed, the notes returned are the lines of a
    prefix of the input, joined by newlines, and no two empty lines in a
    row are among them: nothing is reordered, changed or made up. *)
Theorem prompt_raw_notes_prefix (input : list string) :
  exists notes,
    _prompt_raw_notes input = String.concat (String LF "") notes
    /\ notes `prefix_of` input
    /\ no_blank_pair notes = true.
Proof.
  unfold _prompt_raw_notes.
  destruct (first_blank_pair input) as [Hno|(notes & rest & -> & Hno)].
  - exists input. by rewrite read_notes_to_eof.
  - apply no_blank_pair_snoc in Hno as [Hno Hlast]. exists notes.
    rewrite (read_notes_to_blank_pair notes [] rest) by done.
    split; [done|]. split; [|done]. by eexists.
Qed.
